(** * Gestion de stock : entrepot FIFO, log d'alertes borne, colis tries

    Shallow embedding of [src/code.py] (classes [Entrepot] and
    [Conditionnement]) and the properties of its natural-language
    specification.

    Modelling choices.
    - A Python [str] is the list of its code points ([list N]).
    - What the program inherits from the interpreter (the Unicode
      character tables behind [str.strip], [str.upper], [str.isalpha] and
      [int], and the integer string conversion limit) is the class
      [Python]: every definition and theorem is parametric in it, and the
      instance [ascii_python] is used to evaluate concrete sessions on
      ASCII input.
    - [self.stock], a [defaultdict(deque)], is a [gmap] from codes to
      lists; reading a missing key through [self.stock[k]] inserts an
      empty queue, as [defaultdict.__getitem__] does.
    - Methods run in a monad with the mutable [Entrepot], the printed
      lines (one constructor of [sortie] per [print] of the source) and
      the exceptions the builtins can raise ([IndexError], [ValueError]). *)

From stdpp Require Import gmap list sorting.
From Stdlib Require Import ZArith.
From Stdlib Require String Ascii.
Import String.StringSyntax.

Local Open Scope N_scope.

Abbreviation str := (list N).

(** Code points of a literal, to write sessions legibly. *)
Definition u (s : String.string) : str :=
  Ascii.N_of_ascii <$> String.list_ascii_of_string s.
Arguments u s%_string_scope.

(** ** The interpreter *)

Class Python := {
  (** [Py_UNICODE_ISSPACE], used by [str.strip] and [int]. *)
  isspace : N → bool;
  (** [str.isalpha] on a one-character string. *)
  isalpha : N → bool;
  (** Full upper-case mapping of one character (one to three characters). *)
  toupper : N → str;
  (** [Py_UNICODE_TODECIMAL]: the value of a decimal digit character. *)
  todecimal : N → option N;
  (** [sys.get_int_max_str_digits()]; 0 disables the limit. *)
  int_max_str_digits : nat
}.

Inductive exc := IndexError | ValueError.

Inductive result (A : Type) :=
| Ok (a : A)
| Raise (e : exc).
Arguments Ok {A} a.
Arguments Raise {A} e.

Definition virgule : N := 44.
Definition souligne : N := 95.

(** ** Builtins on strings *)

(** [s.split(sep)] for a one-character separator: never empty. *)
Fixpoint split (sep : N) (s : str) : list str :=
  match s with
  | [] => [[]]
  | c :: s' =>
      if c =? sep then [] :: split sep s'
      else match split sep s' with
           | t :: ts => (c :: t) :: ts
           | [] => [[c]]
           end
  end.

Fixpoint lstrip_by (sp : N → bool) (s : str) : str :=
  match s with
  | c :: s' => if sp c then lstrip_by sp s' else s
  | [] => []
  end.

Definition rstrip_by (sp : N → bool) (s : str) : str :=
  reverse (lstrip_by sp (reverse s)).

(** [s[i]]: raises [IndexError] out of range. *)
Definition str_getitem (s : str) (i : nat) : result N :=
  match s !! i with
  | Some c => Ok c
  | None => Raise IndexError
  end.

(** [Py_ISSPACE] of the C locale, used by [PyLong_FromString]. *)
Definition Py_ISSPACE (c : N) : bool :=
  ((9 <=? c) && (c <=? 13)) || (c =? 32).

Definition digit_value (c : N) : option Z :=
  if (48 <=? c) && (c <=? 57) then Some (Z.of_N (c - 48)) else None.

(** The digit scan of [PyLong_FromString] in base 10: digits and single
    underscores; [prev] is the previous character (0 at the start).
    Returns the value, the number of digits, the last character read and
    the rest; [None] on a doubled underscore. *)
Fixpoint scan_digits (prev : N) (acc : Z) (digits : nat) (s : str)
  : option (Z * nat * N * str) :=
  match s with
  | c :: s' =>
      if c =? souligne then
        if prev =? souligne then None else scan_digits souligne acc digits s'
      else match digit_value c with
           | Some d => scan_digits c (10 * acc + d)%Z (S digits) s'
           | None => Some (acc, digits, prev, s)
           end
  | [] => Some (acc, digits, prev, [])
  end.

Section builtins.
Context `{Python}.

Definition strip (s : str) : str := rstrip_by isspace (lstrip_by isspace s).

Definition upper (s : str) : str := flat_map toupper s.

(** [_PyUnicode_TransformDecimalAndSpaceToASCII], one character: ASCII
    below 127 is kept, other white space becomes a blank, other decimal
    digits become ASCII digits, anything else makes the literal
    invalid. *)
Definition transform_char (c : N) : option N :=
  if c <? 127 then Some c
  else if isspace c then Some 32
  else (λ d, 48 + d) <$> todecimal c.

(** The conversion limit applies above 640 digits only. *)
Definition exceeds_limit (digits : nat) : bool :=
  ((640 <? digits) && (0 <? int_max_str_digits)
   && (int_max_str_digits <? digits))%nat.

(** [PyLong_FromString(s, base=10)] on the transformed literal: blanks,
    an optional sign, digits with single inner underscores, blanks. *)
Definition long_from_ascii (s : str) : option Z :=
  let s1 := lstrip_by Py_ISSPACE s in
  let '(sign, s2) :=
    match s1 with
    | c :: r => if c =? 43 then (1%Z, r)
                else if c =? 45 then ((-1)%Z, r) else (1%Z, s1)
    | [] => (1%Z, s1)
    end in
  match s2 with
  | c :: _ => if c =? souligne then None else
      match scan_digits 0 0%Z 0%nat s2 with
      | Some (v, digits, prev, rest) =>
          if prev =? souligne then None
          else if (digits =? 0)%nat then None
          else if exceeds_limit digits then None
          else match lstrip_by Py_ISSPACE rest with
               | [] => Some (sign * v)%Z
               | _ :: _ => None
               end
      | None => None
      end
  | [] => None
  end.

(** [int(s)] on a [str]: raises [ValueError] on an invalid literal. *)
Definition py_int (s : str) : result Z :=
  match mapM transform_char s with
  | Some a =>
      match long_from_ascii a with
      | Some z => Ok z
      | None => Raise ValueError
      end
  | None => Raise ValueError
  end.
End builtins.

(** The tables restricted to ASCII: exact on every character below 127. *)
Definition ascii_isspace (c : N) : bool :=
  ((9 <=? c) && (c <=? 13)) || ((28 <=? c) && (c <=? 32)).
Definition ascii_isalpha (c : N) : bool :=
  ((65 <=? c) && (c <=? 90)) || ((97 <=? c) && (c <=? 122)).
Definition ascii_toupper (c : N) : str :=
  if (97 <=? c) && (c <=? 122) then [c - 32] else [c].
Definition ascii_todecimal (c : N) : option N :=
  if (48 <=? c) && (c <=? 57) then Some (c - 48) else None.

Definition ascii_python : Python := {|
  isspace := ascii_isspace;
  isalpha := ascii_isalpha;
  toupper := ascii_toupper;
  todecimal := ascii_todecimal;
  int_max_str_digits := 4300
|}.

(** ** State, output and the method monad *)

(** One entry [{'id': ..., 'vol': ...}] of a package. *)
Record article := Article { art_id : str; art_vol : Z }.

Record Entrepot := mkEntrepot {
  stock : gmap str (list str);
  log_alertes : list str;
  liste_colis : list (list article)
}.

(** [self.seuil_min], set once by [__init__] and never reassigned. *)
Definition seuil_min : nat := 2.

(** The object before [__init__] seeds it. *)
Definition entrepot_vide : Entrepot := mkEntrepot ∅ [] [].

(** What the program prints, one constructor per [print] of the source. *)
Inductive sortie :=
| FormatInvalide (p : str)
| Resolu (p : str) (quantite : nat)
| StockBas (p : str) (quantite : nat)
| AlerteActivee (p : str)
| LogPlein (p : str)
| Rupture (p : str)
| ColisCree (n : nat)
| EnteteInventaire
| InventaireVide
| LigneProduit (p : str) (quantite : nat) (bas : bool)
| AucunColis
| EnteteColis (numero : nat)
| LigneArticle (p : str)
| PiedColis
| LogAlertes (l : list str)
| ChoixInconnu.

Definition M (A : Type) : Type :=
  Entrepot → result (A * Entrepot * list sortie).

#[global] Instance M_ret : MRet M := λ A a e, Ok (a, e, []).

#[global] Instance M_bind : MBind M := λ A B k m e,
  match m e with
  | Ok (a, e1, o1) =>
      match k a e1 with
      | Ok (b, e2, o2) => Ok (b, e2, o1 ++ o2)
      | Raise x => Raise x
      end
  | Raise x => Raise x
  end.

Definition lift {A} (r : result A) : M A := λ e,
  match r with
  | Ok a => Ok (a, e, [])
  | Raise x => Raise x
  end.

Definition print (s : sortie) : M unit := λ e, Ok (tt, e, [s]).

(** [for x in l: body(x)] *)
Fixpoint for_each {A} (l : list A) (body : A → M unit) : M unit :=
  match l with
  | [] => mret tt
  | x :: l' => body x;; for_each l' body
  end.

(** A [for] loop that updates a local variable. *)
Fixpoint for_fold {A B} (l : list A) (acc : B) (body : B → A → M B) : M B :=
  match l with
  | [] => mret acc
  | x :: l' => acc' ← body acc x; for_fold l' acc' body
  end.

(** *** The dictionary of queues *)

(** [self.stock[k]] on a [defaultdict(deque)]: a missing key is inserted
    with an empty queue. *)
Definition stock_getitem (k : str) : M (list str) := λ e,
  match stock e !! k with
  | Some q => Ok (q, e, [])
  | None =>
      Ok ([],
          mkEntrepot (<[k := []]> (stock e)) (log_alertes e) (liste_colis e),
          [])
  end.

Definition get_stock : M (gmap str (list str)) := λ e, Ok (stock e, e, []).

(** [k in self.stock] *)
Definition stock_contains (k : str) : M bool := λ e,
  Ok (bool_decide (is_Some (stock e !! k)), e, []).

(** The queue held under [k] after it was mutated in place. *)
Definition deque_set (k : str) (q : list str) : M unit := λ e,
  Ok (tt, mkEntrepot (<[k := q]> (stock e)) (log_alertes e) (liste_colis e), []).

(** [self.stock[k].append(x)] *)
Definition deque_append (k x : str) : M unit :=
  q ← stock_getitem k; deque_set k (q ++ [x]).

(** [self.stock[k].popleft()]: raises [IndexError] on an empty queue. *)
Definition deque_popleft (k : str) : M str :=
  q ← stock_getitem k;
  match q with
  | x :: q' => deque_set k q';; mret x
  | [] => lift (Raise IndexError)
  end.

(** *** The alert log and the archive *)

Definition get_log : M (list str) := λ e, Ok (log_alertes e, e, []).

Definition set_log (l : list str) : M unit := λ e,
  Ok (tt, mkEntrepot (stock e) l (liste_colis e), []).

(** [l.remove(x)] on a list: the first occurrence; [None] when absent. *)
Fixpoint list_remove (x : str) (l : list str) : option (list str) :=
  match l with
  | [] => None
  | y :: l' => if decide (x = y) then Some l' else (y ::.) <$> list_remove x l'
  end.

(** [self.log_alertes.remove(x)]: raises [ValueError] when absent. *)
Definition log_remove (x : str) : M unit :=
  l ← get_log;
  match list_remove x l with
  | Some l' => set_log l'
  | None => lift (Raise ValueError)
  end.

(** [self.log_alertes.append(x)] *)
Definition log_append (x : str) : M unit :=
  l ← get_log; set_log (l ++ [x]).

Definition get_colis : M (list (list article)) := λ e, Ok (liste_colis e, e, []).

(** [entrepot.liste_colis.append(c)] *)
Definition colis_append (c : list article) : M unit := λ e,
  Ok (tt, mkEntrepot (stock e) (log_alertes e) (liste_colis e ++ [c]), []).

(** *** Sorting *)

(** A stable sort: [x] is placed before the first element it may
    precede. [list.sort] and [sorted] are stable, with [reverse=True]
    too. *)
Fixpoint insert_by {A} (le : A → A → bool) (x : A) (l : list A) : list A :=
  match l with
  | [] => [x]
  | y :: l' => if le x y then x :: l else y :: insert_by le x l'
  end.

Definition sort_by {A} (le : A → A → bool) (l : list A) : list A :=
  foldr (insert_by le) [] l.

(** [key=lambda x: x['vol'], reverse=True] *)
Definition vol_desc (a b : article) : bool := (art_vol b <=? art_vol a)%Z.

(** Comparison of two [str], by code points. *)
Fixpoint str_le (s t : str) : bool :=
  match s, t with
  | [], _ => true
  | _ :: _, [] => false
  | c :: s', d :: t' => (c <? d) || ((c =? d) && str_le s' t')
  end.

Definition cle_le (x y : str * list str) : bool := str_le x.1 y.1.

(** ** The methods of [Entrepot] and [Conditionnement] *)

Section methodes.
Context `{Python}.

(** [[p.strip().upper() for p in chaine.split(',')]] *)
Definition nettoyer (chaine : str) : list str :=
  (λ p, upper (strip p)) <$> split virgule chaine.

(** [len(id_produit) >= 2 and id_produit[0].isalpha()] *)
Definition format_valide (id_produit : str) : M bool :=
  if (2 <=? length id_produit)%nat then
    c ← lift (str_getitem id_produit 0); mret (isalpha c)
  else mret false.

Definition verifier_et_nettoyer_alerte (id_produit : str) : M unit :=
  articles ← stock_getitem id_produit;
  let quantite := length articles in
  l ← get_log;
  if bool_decide (id_produit ∈ l) then
    if (seuil_min <=? quantite)%nat then
      log_remove id_produit;;
      print (Resolu id_produit quantite)
    else
      print (StockBas id_produit quantite)
  else mret tt.

(** The body of the loop of [ajouter_lot]. *)
Definition ajouter_produit (id_produit : str) : M unit :=
  valide ← format_valide id_produit;
  if valide : bool then
    deque_append id_produit id_produit;;
    verifier_et_nettoyer_alerte id_produit
  else
    print (FormatInvalide id_produit).

Definition ajouter_lot (chaine_produits : str) : M unit :=
  let produits := nettoyer chaine_produits in
  for_each produits ajouter_produit.

Definition initialiser_stock_defaut : M unit :=
  ajouter_lot (u "A3, A3, B5, B5, C1, C1, A2, A2").

(** [Entrepot()]: the attributes are those of [entrepot_vide], then the
    default stock is loaded. *)
Definition init : M unit := initialiser_stock_defaut.

Definition enregistrer_alerte (id_produit : str) : M unit :=
  articles ← stock_getitem id_produit;
  if (seuil_min <=? length articles)%nat then mret tt
  else
    l ← get_log;
    if bool_decide (id_produit ∈ l) then mret tt
    else if (length l <? 3)%nat then
      log_append id_produit;;
      print (AlerteActivee id_produit)
    else
      print (LogPlein id_produit).

Definition afficher_inventaire : M unit :=
  print EnteteInventaire;;
  s ← get_stock;
  (if bool_decide (s = ∅) then print InventaireVide else mret tt);;
  for_each (sort_by cle_le (map_to_list s)) (λ '(id_produit, articles),
    let quantite := length articles in
    print (LigneProduit id_produit quantite (quantite <? seuil_min)%nat)).

(** [try: volume = int(id_produit[1:]) except ValueError: volume = 0] *)
Definition volume_de (id_produit : str) : result Z :=
  match py_int (drop 1 id_produit) with
  | Ok volume => Ok volume
  | Raise ValueError => Ok 0%Z
  | Raise e => Raise e
  end.

(** [id_produit in entrepot.stock and entrepot.stock[id_produit]] *)
Definition disponible (id_produit : str) : M bool :=
  present ← stock_contains id_produit;
  if present : bool then
    articles ← stock_getitem id_produit;
    mret (negb (bool_decide (articles = [])))
  else mret false.

(** The body of the loop of [preparer_colis], on the local
    [contenu_colis]. *)
Definition traiter_commande (contenu_colis : list article) (id_produit : str)
  : M (list article) :=
  if bool_decide (id_produit = []) then mret contenu_colis
  else
    dispo ← disponible id_produit;
    contenu_colis ←
      (if dispo : bool then
         volume ← lift (volume_de id_produit);
         let contenu_colis := contenu_colis ++ [Article id_produit volume] in
         deque_popleft id_produit;;
         mret contenu_colis
       else
         print (Rupture id_produit);;
         mret contenu_colis);
    enregistrer_alerte id_produit;;
    mret contenu_colis.

Definition preparer_colis (chaine_commande : str) : M unit :=
  let liste_commande := nettoyer chaine_commande in
  contenu_colis ← for_fold liste_commande [] traiter_commande;
  let contenu_colis := sort_by vol_desc contenu_colis in
  if bool_decide (contenu_colis = []) then mret tt
  else
    colis_append contenu_colis;;
    print (ColisCree (length contenu_colis)).

Definition afficher_colis : M unit :=
  colis ← get_colis;
  if bool_decide (colis = []) then print AucunColis
  else
    for_each (imap (λ index c, (index, c)) colis) (λ '(index, c),
      print (EnteteColis (index + 1));;
      for_each (reverse c) (λ a, print (LigneArticle (art_id a)));;
      print PiedColis).

(** The menu of [main], one constructor per choice that keeps the
    session going. *)
Inductive commande :=
| Ajout (produits : str)
| Colis (liste : str)
| VoirStock
| VoirColis
| VoirAlertes
| Autre.

Definition executer (c : commande) : M unit :=
  match c with
  | Ajout s => ajouter_lot s
  | Colis s => preparer_colis s
  | VoirStock => afficher_inventaire
  | VoirColis => afficher_colis
  | VoirAlertes => l ← get_log; print (LogAlertes l)
  | Autre => print ChoixInconnu
  end.

(** A session: [Entrepot()] followed by the commands. *)
Definition session (cs : list commande) : M unit :=
  init;; for_each cs executer.

Definition run (cs : list commande) := session cs entrepot_vide.
End methodes.

Local Close Scope N_scope.

(** * Notions used to state the properties *)

(** The queue of a code, empty when the code is unknown, and its length:
    the quantity. *)
Definition file (e : Entrepot) (k : str) : list str := default [] (stock e !! k).
Definition quantite (e : Entrepot) (k : str) : nat := length (file e k).

(** What the resolution check does to the log and prints, for a code of
    quantity [q]. *)
Definition resoudre (p : str) (q : nat) (l : list str) : list str * list sortie :=
  if bool_decide (p ∈ l) then
    if (seuil_min <=? q)%nat then (default l (list_remove p l), [Resolu p q])
    else (l, [StockBas p q])
  else (l, []).

(** What [enregistrer_alerte] does to the log and prints. *)
Definition alerter (p : str) (q : nat) (l : list str) : list str * list sortie :=
  if (seuil_min <=? q)%nat then (l, [])
  else if bool_decide (p ∈ l) then (l, [])
  else if (length l <? 3)%nat then (l ++ [p], [AlerteActivee p])
  else (l, [LogPlein p]).

Section notions.
Context `{Python}.

(** The format check of [ajouter_lot] as a function of the code. *)
Definition valide (p : str) : bool :=
  match p with
  | c :: _ :: _ => isalpha c
  | _ => false
  end.

(** The volume of a code: [int] of its suffix, 0 when [int] fails. *)
Definition volume (p : str) : Z :=
  match py_int (drop 1 p) with
  | Ok z => z
  | Raise _ => 0%Z
  end.

(** The availability check and the pop attempt of [traiter_commande],
    without the alert check that follows them. *)
Definition prelever (contenu_colis : list article) (id_produit : str)
  : M (list article) :=
  dispo ← disponible id_produit;
  if dispo : bool then
    volume ← lift (volume_de id_produit);
    let contenu_colis := contenu_colis ++ [Article id_produit volume] in
    deque_popleft id_produit;;
    mret contenu_colis
  else
    print (Rupture id_produit);;
    mret contenu_colis.
End notions.

(** The two parts of the invariant of the alert log: no duplicate and at
    most 3 codes; every code of the log is below the threshold. *)
Definition log_borne (e : Entrepot) : Prop :=
  NoDup (log_alertes e) ∧ length (log_alertes e) ≤ 3.

Definition log_sous_seuil (e : Entrepot) : Prop :=
  ∀ p, p ∈ log_alertes e → quantite e p < seuil_min.

Definition invariant (e : Entrepot) : Prop := log_borne e ∧ log_sous_seuil e.

(** The lines of the two displays. *)
Definition ligne_inventaire (x : str * list str) : sortie :=
  LigneProduit x.1 (length x.2) (length x.2 <? seuil_min).

Definition lignes_colis (x : nat * list article) : list sortie :=
  EnteteColis (x.1 + 1)
  :: ((λ a, LigneArticle (art_id a)) <$> reverse x.2) ++ [PiedColis].

(** [a] may lie below [b] in the package: its volume is not smaller. *)
Definition vol_ge (a b : article) : Prop := (art_vol b ≤ art_vol a)%Z.

(** Lines of the output by kind. *)
Definition est_rupture (s : sortie) : bool :=
  match s with
  | Rupture _ => true
  | _ => false
  end.

Definition est_format_invalide (s : sortie) : bool :=
  match s with
  | FormatInvalide _ => true
  | _ => false
  end.

(** ASCII digits and the number they denote. *)
Definition chiffre (c : N) : bool := ((48 <=? c) && (c <=? 57))%N.

(** The number a string of ASCII digits denotes. *)
Definition decimal_de (acc : Z) (s : str) : Z :=
  fold_left (λ acc c, 10 * acc + Z.of_N (c - 48))%Z s acc.
Definition decimal (s : str) : Z := decimal_de 0 s.

(** A warehouse whose log is full. *)
Definition entrepot_log_plein : Entrepot :=
  mkEntrepot ∅ [u "C1"; u "A3"; u "B5"] [].

(** A warehouse in the middle of [ajouter_lot]: "C1" is in the log and
    its second unit has just been appended. *)
Definition entrepot_c1 : Entrepot :=
  mkEntrepot {[ u "C1" := [u "C1"; u "C1"] ]} [u "C1"] [].

(** A warehouse holding one unit of "A3". *)
Definition entrepot_a3 : Entrepot :=
  mkEntrepot {[ u "A3" := [u "A3"] ]} [] [].

(** ** Notions for the further properties *)

(** The backorder notices of one code. *)
Definition est_rupture_de (k : str) (s : sortie) : bool :=
  match s with
  | Rupture p => bool_decide (p = k)
  | _ => false
  end.

(** How many units of [k] the archive holds. *)
Definition archives (e : Entrepot) (k : str) : nat :=
  length (filter (λ a, art_id a = k) (concat (liste_colis e))).

Section comptes.
Context `{Python}.

(** How many units of [k] an order asks for: its non-blank tokens equal
    to [k]. *)
Definition demandes (s k : str) : nat :=
  length (filter (λ t, t = k ∧ t ≠ []) (nettoyer s)).

(** How many tokens of a batch are accepted as the code [k]. *)
Definition acceptes (s k : str) : nat :=
  length (filter (λ t, t = k ∧ valide t = true) (nettoyer s)).

(** The units of [k] that the additions of a session bring in. *)
Fixpoint ajouts (cs : list commande) (k : str) : nat :=
  match cs with
  | [] => 0
  | Ajout s :: cs' => acceptes s k + ajouts cs' k
  | _ :: cs' => ajouts cs' k
  end.
End comptes.

Section propre.
Context `{Python}.

(** Every queue holds only copies of its own key, the empty string is
    neither a key nor in the log, and a code with a unit in stock passes
    the format check. *)
Definition stock_propre (e : Entrepot) : Prop :=
  (∀ k q, stock e !! k = Some q →
          k ≠ [] ∧ Forall (λ x, x = k) q ∧ (q ≠ [] → valide k = true))
  ∧ [] ∉ log_alertes e.

(** An item of a package: an accepted code with the volume of that code. *)
Definition article_propre (a : article) : Prop :=
  valide (art_id a) = true ∧ volume_de (art_id a) = Ok (art_vol a).

Definition colis_propre (c : list article) : Prop :=
  c ≠ [] ∧ StronglySorted vol_ge c ∧ Forall article_propre c.

Definition archive_propre (e : Entrepot) : Prop :=
  Forall colis_propre (liste_colis e).
End propre.

(** The pack commands of a session. *)
Definition est_colis (c : commande) : bool :=
  match c with
  | Colis _ => true
  | _ => false
  end.

(** Strict order of the codes, by code points. *)
Definition code_avant (x y : str * list str) : Prop :=
  str_le x.1 y.1 = true ∧ x.1 ≠ y.1.

(** The code shown by an item line and the number shown by a package
    header of [afficher_colis]. *)
Definition code_article (s : sortie) : option str :=
  match s with
  | LigneArticle p => Some p
  | _ => None
  end.

Definition numero_entete (s : sortie) : option nat :=
  match s with
  | EnteteColis n => Some n
  | _ => None
  end.

(** The commas of a string. *)
Definition virgules (s : str) : nat :=
  length (filter (λ c, c = virgule) s).

(** A string made of white space and commas only. *)
Definition blanche `{Python} (s : str) : Prop :=
  Forall (λ c, isspace c = true ∨ c = virgule) s.

(** An interpreter whose character tables are those of ASCII on the
    ASCII characters, as the Unicode tables are. *)
Definition tables_ascii (H : Python) : Prop :=
  ∀ c, (c < 128)%N →
       @isspace H c = ascii_isspace c
       ∧ @isalpha H c = ascii_isalpha c
       ∧ @toupper H c = ascii_toupper c.

Definition est_ascii (s : str) : Prop := Forall (λ c, (c < 128)%N) s.


(** The warehouse that [Entrepot()] builds. *)
Definition entrepot_defaut : Entrepot :=
  mkEntrepot
    (list_to_map [(u "A2", [u "A2"; u "A2"]); (u "A3", [u "A3"; u "A3"]);
                  (u "B5", [u "B5"; u "B5"]); (u "C1", [u "C1"; u "C1"])])
    [] [].

(** ** The menu loop of [main] *)

(** The prompts of the three [input] calls. *)
Inductive invite := VotreChoix | ProduitsAEntrer | ListeCommande.

(** What appears on the screen during [main]: the lines of the methods,
    the menu, the prompts and the farewell. *)
Inductive ecran :=
| Affiche (s : sortie)
| MenuPrincipal
| Invite (i : invite)
| ArretSysteme.

(** How [main] ends: choice 6, [EOFError] of an [input] when the lines
    run out, or an exception of a method. *)
Inductive issue := Quitte | EOFError | Exception (x : exc).

Definition sortie_de (x : ecran) : option sortie :=
  match x with
  | Affiche s => Some s
  | _ => None
  end.

Section principal.
Context `{Python}.

(** A method call of the loop followed by the rest of the loop. *)
Definition appel (m : M unit) (e : Entrepot)
    (suite : Entrepot → issue * Entrepot * list ecran)
  : issue * Entrepot * list ecran :=
  match m e with
  | Ok (_, e', o) =>
      let '(i, e'', o') := suite e' in (i, e'', (Affiche <$> o) ++ o')
  | Raise x => (Exception x, e, [])
  end.

(** The [while True] loop on the lines that [input] will return. *)
Fixpoint boucle (entrees : list str) (e : Entrepot)
  : issue * Entrepot * list ecran :=
  match entrees with
  | [] => (EOFError, e, [MenuPrincipal; Invite VotreChoix])
  | choix :: reste =>
      let '(i, e', o) :=
        if decide (choix = u "1") then
          match reste with
          | [] => (EOFError, e, [Invite ProduitsAEntrer])
          | s :: reste' =>
              let '(i, e', o) := appel (ajouter_lot s) e (boucle reste') in
              (i, e', Invite ProduitsAEntrer :: o)
          end
        else if decide (choix = u "2") then
          match reste with
          | [] => (EOFError, e, [Invite ListeCommande])
          | s :: reste' =>
              let '(i, e', o) := appel (preparer_colis s) e (boucle reste') in
              (i, e', Invite ListeCommande :: o)
          end
        else if decide (choix = u "3") then
          appel afficher_inventaire e (boucle reste)
        else if decide (choix = u "4") then
          appel afficher_colis e (boucle reste)
        else if decide (choix = u "5") then
          appel (l ← get_log; print (LogAlertes l)) e (boucle reste)
        else if decide (choix = u "6") then
          (Quitte, e, [ArretSysteme])
        else
          appel (print ChoixInconnu) e (boucle reste)
      in
      (i, e', MenuPrincipal :: Invite VotreChoix :: o)
  end.

Definition main (entrees : list str) : issue * Entrepot * list ecran :=
  appel init entrepot_vide (boucle entrees).

(** The commands that a sequence of input lines amounts to, and whether
    it reaches choice 6. *)
Fixpoint commandes_saisies (entrees : list str) : list commande :=
  match entrees with
  | [] => []
  | choix :: reste =>
      if decide (choix = u "1") then
        match reste with
        | [] => []
        | s :: reste' => Ajout s :: commandes_saisies reste'
        end
      else if decide (choix = u "2") then
        match reste with
        | [] => []
        | s :: reste' => Colis s :: commandes_saisies reste'
        end
      else if decide (choix = u "3") then VoirStock :: commandes_saisies reste
      else if decide (choix = u "4") then VoirColis :: commandes_saisies reste
      else if decide (choix = u "5") then VoirAlertes :: commandes_saisies reste
      else if decide (choix = u "6") then []
      else Autre :: commandes_saisies reste
  end.

Fixpoint quitte (entrees : list str) : bool :=
  match entrees with
  | [] => false
  | choix :: reste =>
      if decide (choix = u "1") then
        match reste with
        | [] => false
        | _ :: reste' => quitte reste'
        end
      else if decide (choix = u "2") then
        match reste with
        | [] => false
        | _ :: reste' => quitte reste'
        end
      else if decide (choix = u "3") then quitte reste
      else if decide (choix = u "4") then quitte reste
      else if decide (choix = u "5") then quitte reste
      else if decide (choix = u "6") then true
      else quitte reste
  end.
End principal.

(** * Effects of the methods *)

Ltac run :=
  unfold mbind, M_bind, mret, M_ret, lift, print, get_log, set_log,
    get_stock, get_colis, colis_append, deque_set, stock_contains; simpl.

Lemma bind_ok {A B} (m : M A) (k : A → M B) e a e1 o1 :
  m e = Ok (a, e1, o1) →
  (m ≫= k) e = match k a e1 with
               | Ok (b, e2, o2) => Ok (b, e2, o1 ++ o2)
               | Raise x => Raise x
               end.
Proof. intros Hm. unfold mbind, M_bind. by rewrite Hm. Qed.

Lemma ret_bind_run {A B} (a : A) (k : A → M B) e : (mret a ≫= k) e = k a e.
Proof.
  unfold mbind, M_bind, mret, M_ret. by destruct (k a e) as [[[??]?]|].
Qed.

Lemma lift_ok_bind_run {A B} (a : A) (k : A → M B) e :
  (lift (Ok a) ≫= k) e = k a e.
Proof. apply ret_bind_run. Qed.

Lemma bind_assoc_run {A B C} (m : M A) (f : A → M B) (g : B → M C) e :
  ((m ≫= f) ≫= g) e = (m ≫= λ a, f a ≫= g) e.
Proof.
  unfold mbind, M_bind. destruct (m e) as [[[a e1] o1]|]; [|done].
  destruct (f a e1) as [[[b e2] o2]|]; [|done].
  destruct (g b e2) as [[[c e3] o3]|]; [|done].
  by rewrite app_assoc.
Qed.

Lemma stock_getitem_run k e :
  stock_getitem k e =
    Ok (file e k,
        mkEntrepot (<[k := file e k]> (stock e)) (log_alertes e) (liste_colis e),
        []).
Proof.
  unfold stock_getitem, file. destruct (stock e !! k) as [q|] eqn:Hk; simpl.
  - rewrite insert_id by done. by destruct e.
  - done.
Qed.

Lemma deque_append_run k x e :
  deque_append k x e =
    Ok (tt,
        mkEntrepot (<[k := file e k ++ [x]]> (stock e)) (log_alertes e)
          (liste_colis e),
        []).
Proof.
  unfold deque_append. rewrite (bind_ok _ _ _ _ _ _ (stock_getitem_run k e)).
  run. by rewrite insert_insert_eq.
Qed.

Lemma deque_popleft_run k e x q :
  stock e !! k = Some (x :: q) →
  deque_popleft k e =
    Ok (x, mkEntrepot (<[k := q]> (stock e)) (log_alertes e) (liste_colis e), []).
Proof.
  intros Hk. unfold deque_popleft.
  rewrite (bind_ok _ _ _ _ _ _ (stock_getitem_run k e)).
  unfold file. rewrite Hk. run. by rewrite insert_insert_eq.
Qed.

Lemma file_insert_eq k q s l c :
  file (mkEntrepot (<[k := q]> s) l c) k = q.
Proof. unfold file. simpl. by rewrite lookup_insert_eq. Qed.

Lemma file_insert_ne k k' q s l c :
  k ≠ k' → file (mkEntrepot (<[k := q]> s) l c) k' = file (mkEntrepot s l c) k'.
Proof. intros. unfold file. simpl. by rewrite lookup_insert_ne. Qed.

Lemma list_remove_elem_of x l : x ∈ l → is_Some (list_remove x l).
Proof.
  induction l as [|y l IH]; [by intros ?%elem_of_nil|].
  intros Hx. simpl. destruct (decide (x = y)); [by eexists|].
  apply elem_of_cons in Hx as [?|Hx]; [done|].
  destruct (IH Hx) as [l' ->]. by eexists.
Qed.

Lemma list_remove_sublist x l l' : list_remove x l = Some l' → sublist l' l.
Proof.
  revert l'. induction l as [|y l IH]; intros l'; simpl; [done|].
  destruct (decide (x = y)).
  - intros [= <-]. by apply sublist_cons.
  - destruct (list_remove x l) as [l1|]; simpl; [|done].
    intros [= <-]. apply sublist_skip. by apply IH.
Qed.

Lemma list_remove_NoDup x l l' :
  NoDup l → list_remove x l = Some l' →
  (x ∉ l') ∧ (∀ y, y ∈ l ↔ y = x ∨ y ∈ l').
Proof.
  revert l'. induction l as [|y l IH]; intros l' Hnd; simpl; [done|].
  apply NoDup_cons in Hnd as [Hy Hnd].
  destruct (decide (x = y)) as [->|Hne].
  - intros [= <-]. split; [done|]. intros z. by rewrite elem_of_cons.
  - destruct (list_remove x l) as [l1|] eqn:Hl; simpl; [|done].
    intros [= <-]. destruct (IH l1 Hnd eq_refl) as [Hx Hiff]. split.
    + rewrite elem_of_cons. intros [?|?]; congruence.
    + intros z. rewrite !elem_of_cons, Hiff. tauto.
Qed.

Section effets.
Context `{Python}.

Lemma format_valide_run p e : format_valide p e = Ok (valide p, e, []).
Proof.
  unfold format_valide, valide.
  destruct p as [|c [|d p]]; simpl; try done.
Qed.

Lemma volume_de_run p : volume_de p = Ok (volume p).
Proof.
  unfold volume_de, volume, py_int.
  destruct (mapM transform_char (drop 1 p)) as [a|]; [|done].
  by destruct (long_from_ascii a).
Qed.

Lemma verifier_run p e :
  verifier_et_nettoyer_alerte p e =
    let r := resoudre p (quantite e p) (log_alertes e) in
    Ok (tt, mkEntrepot (<[p := file e p]> (stock e)) r.1 (liste_colis e), r.2).
Proof.
  unfold verifier_et_nettoyer_alerte.
  rewrite (bind_ok _ _ _ _ _ _ (stock_getitem_run p e)).
  unfold resoudre, quantite.
  destruct (seuil_min <=? length (file e p))%nat; run;
    case_bool_decide as Hin; try done.
  unfold log_remove. run.
  destruct (list_remove_elem_of _ _ Hin) as [l' ->]. done.
Qed.

Lemma enregistrer_run p e :
  enregistrer_alerte p e =
    let r := alerter p (quantite e p) (log_alertes e) in
    Ok (tt, mkEntrepot (<[p := file e p]> (stock e)) r.1 (liste_colis e), r.2).
Proof.
  unfold enregistrer_alerte.
  rewrite (bind_ok _ _ _ _ _ _ (stock_getitem_run p e)).
  unfold alerter, quantite.
  destruct (seuil_min <=? length (file e p))%nat; [by run|].
  run. case_bool_decide; [done|].
  destruct (length (log_alertes e) <? 3)%nat eqn:Hlen;
    unfold log_append; run; done.
Qed.

Lemma ajouter_produit_run p e :
  ajouter_produit p e =
    if valide p then
      let r := resoudre p (S (quantite e p)) (log_alertes e) in
      Ok (tt,
          mkEntrepot (<[p := file e p ++ [p]]> (stock e)) r.1 (liste_colis e),
          r.2)
    else Ok (tt, e, [FormatInvalide p]).
Proof.
  unfold ajouter_produit.
  rewrite (bind_ok _ _ _ _ _ _ (format_valide_run p e)).
  destruct (valide p); [|done].
  rewrite (bind_ok _ _ _ _ _ _ (deque_append_run p p e)).
  rewrite verifier_run. unfold quantite. rewrite file_insert_eq.
  simpl. rewrite insert_insert_eq, length_app, Nat.add_1_r. done.
Qed.

Lemma disponible_run p e :
  disponible p e = Ok (negb (bool_decide (file e p = [])), e, []).
Proof.
  unfold disponible. unfold mbind at 1. unfold M_bind, stock_contains.
  destruct (stock e !! p) as [q|] eqn:Hp.
  - rewrite bool_decide_eq_true_2 by eauto.
    rewrite (bind_ok _ _ _ _ _ _ (stock_getitem_run p e)).
    unfold file. rewrite Hp. run.
    rewrite insert_id by done. by destruct e.
  - rewrite bool_decide_eq_false_2 by (by intros [? [=]]).
    unfold file. rewrite Hp. done.
Qed.

Lemma traiter_commande_run c p e :
  traiter_commande c p e =
    if bool_decide (p = []) then Ok (c, e, [])
    else match file e p with
         | x :: q =>
             let r := alerter p (length q) (log_alertes e) in
             Ok (c ++ [Article p (volume p)],
                 mkEntrepot (<[p := q]> (stock e)) r.1 (liste_colis e),
                 r.2)
         | [] =>
             let r := alerter p 0 (log_alertes e) in
             Ok (c,
                 mkEntrepot (<[p := []]> (stock e)) r.1 (liste_colis e),
                 Rupture p :: r.2)
         end.
Proof.
  unfold traiter_commande. case_bool_decide; [done|].
  rewrite (bind_ok _ _ _ _ _ _ (disponible_run p e)).
  destruct (file e p) as [|x q] eqn:Hf; simpl.
  - run. rewrite enregistrer_run. unfold quantite. rewrite Hf.
    simpl. by rewrite app_nil_r.
  - assert (stock e !! p = Some (x :: q)) as Hp.
    { unfold file in Hf. destruct (stock e !! p); simpl in Hf; by subst. }
    rewrite bind_assoc_run, volume_de_run, lift_ok_bind_run, bind_assoc_run.
    rewrite (bind_ok _ _ _ _ _ _ (deque_popleft_run p e x q Hp)).
    rewrite ret_bind_run.
    rewrite (bind_ok _ _ _ _ _ _ (enregistrer_run p _)).
    unfold quantite. rewrite file_insert_eq. run.
    by rewrite insert_insert_eq, app_nil_r.
Qed.
End effets.

(** ** Loops *)

Lemma for_each_ind {A} (P : Entrepot → Prop) (body : A → M unit) l :
  (∀ x e, P e → ∃ e' o, body x e = Ok (tt, e', o) ∧ P e') →
  ∀ e, P e → ∃ e' o, for_each l body e = Ok (tt, e', o) ∧ P e'.
Proof.
  intros Hbody. induction l as [|x l IH]; intros e He; simpl.
  - by exists e, [].
  - destruct (Hbody x e He) as (e1 & o1 & Hx & He1).
    destruct (IH e1 He1) as (e2 & o2 & Hl & He2).
    exists e2, (o1 ++ o2). split; [|done].
    rewrite (bind_ok _ _ _ _ _ _ Hx). by rewrite Hl.
Qed.

Lemma for_fold_ind {A B} (P : B → Entrepot → Prop) (body : B → A → M B) l :
  (∀ b x e, P b e → ∃ b' e' o, body b x e = Ok (b', e', o) ∧ P b' e') →
  ∀ b e, P b e → ∃ b' e' o, for_fold l b body e = Ok (b', e', o) ∧ P b' e'.
Proof.
  intros Hbody. induction l as [|x l IH]; intros b e He; simpl.
  - by exists b, e, [].
  - destruct (Hbody b x e He) as (b1 & e1 & o1 & Hx & He1).
    destruct (IH b1 e1 He1) as (b2 & e2 & o2 & Hl & He2).
    exists b2, e2, (o1 ++ o2). split; [|done].
    rewrite (bind_ok _ _ _ _ _ _ Hx). by rewrite Hl.
Qed.

Lemma for_each_cons {A} (body : A → M unit) x l e e1 o1 :
  body x e = Ok (tt, e1, o1) →
  for_each (x :: l) body e =
    match for_each l body e1 with
    | Ok (b, e2, o2) => Ok (b, e2, o1 ++ o2)
    | Raise x => Raise x
    end.
Proof. intros Hx. simpl. by rewrite (bind_ok _ _ _ _ _ _ Hx). Qed.

Lemma for_fold_cons {A B} (body : B → A → M B) x l b e b1 e1 o1 :
  body b x e = Ok (b1, e1, o1) →
  for_fold (x :: l) b body e =
    match for_fold l b1 body e1 with
    | Ok (b, e2, o2) => Ok (b, e2, o1 ++ o2)
    | Raise x => Raise x
    end.
Proof. intros Hx. simpl. by rewrite (bind_ok _ _ _ _ _ _ Hx). Qed.

(** * The invariant of the warehouse *)

Lemma quantite_insert k q s l c k' :
  quantite (mkEntrepot (<[k := q]> s) l c) k' =
    if decide (k = k') then length q else quantite (mkEntrepot s l c) k'.
Proof.
  unfold quantite. case_decide as Hk.
  - subst. by rewrite file_insert_eq.
  - by rewrite file_insert_ne.
Qed.

Lemma resoudre_sublist p q l : sublist (resoudre p q l).1 l.
Proof.
  unfold resoudre. case_bool_decide; [|done].
  destruct (seuil_min <=? q)%nat; [|done]. simpl.
  destruct (list_remove p l) as [l'|] eqn:Hl; [|done].
  by eapply list_remove_sublist.
Qed.

Lemma resoudre_borne p q l :
  NoDup l ∧ length l ≤ 3 →
  NoDup (resoudre p q l).1 ∧ length (resoudre p q l).1 ≤ 3.
Proof.
  intros [Hnd Hlen]. pose proof (resoudre_sublist p q l) as Hs. split.
  - by eapply sublist_NoDup.
  - apply sublist_length in Hs. lia.
Qed.

Lemma alerter_borne p q l :
  NoDup l ∧ length l ≤ 3 →
  NoDup (alerter p q l).1 ∧ length (alerter p q l).1 ≤ 3.
Proof.
  intros [Hnd Hlen]. unfold alerter.
  destruct (seuil_min <=? q)%nat; [done|].
  case_bool_decide as Hin; [done|].
  destruct (length l <? 3)%nat eqn:Hl; [|done]. simpl.
  apply Nat.ltb_lt in Hl. split.
  - apply NoDup_app. split_and!; [done| |apply NoDup_singleton].
    intros x Hx ->%list_elem_of_singleton. done.
  - rewrite length_app. simpl. lia.
Qed.

Lemma resoudre_elem_of p q l y :
  NoDup l → y ∈ (resoudre p q l).1 → y ∈ l ∧ (y = p → q < seuil_min).
Proof.
  intros Hnd. unfold resoudre.
  destruct (seuil_min <=? q) eqn:Hq; case_bool_decide as Hin; simpl.
  - destruct (list_remove_elem_of _ _ Hin) as [l' Hl']. rewrite Hl'. simpl.
    destruct (list_remove_NoDup _ _ _ Hnd Hl') as [Hp Hiff].
    intros Hy. split; [apply Hiff; by right|]. by intros ->.
  - intros Hy. split; [done|]. by intros ->.
  - apply Nat.leb_gt in Hq. done.
  - intros Hy. split; [done|]. by intros ->.
Qed.

Lemma alerter_elem_of p q l y :
  y ∈ (alerter p q l).1 →
  y ∈ l ∨ (y = p ∧ q < seuil_min ∧ (p ∉ l) ∧ length l < 3).
Proof.
  unfold alerter. destruct (seuil_min <=? q) eqn:Hq; [by left|].
  apply Nat.leb_gt in Hq.
  case_bool_decide as Hin; [by left|].
  destruct (length l <? 3) eqn:Hl; [|by left]. simpl.
  apply Nat.ltb_lt in Hl.
  intros [Hy|Hy%list_elem_of_singleton]%elem_of_app; [by left|by right].
Qed.

Section invariants.
Context `{Python}.

Lemma ajouter_produit_invariant p e :
  invariant e → ∃ e' o, ajouter_produit p e = Ok (tt, e', o) ∧ invariant e'.
Proof.
  intros He. pose proof He as [Hb Hs]. rewrite ajouter_produit_run.
  destruct (valide p); [|by exists e, [FormatInvalide p]].
  eexists _, _. split; [done|]. split.
  - by apply resoudre_borne.
  - intros y Hy. simpl in Hy.
    apply resoudre_elem_of in Hy as [Hy Hq]; [|apply Hb].
    rewrite quantite_insert. case_decide as Hp.
    + rewrite length_app. simpl. specialize (Hq (eq_sym Hp)).
      unfold quantite in Hq. lia.
    + by apply Hs.
Qed.

Lemma traiter_commande_invariant c p e :
  invariant e →
  ∃ c' e' o, traiter_commande c p e = Ok (c', e', o) ∧ invariant e'.
Proof.
  intros He. pose proof He as [Hb Hs]. rewrite traiter_commande_run.
  case_bool_decide; [by exists c, e, []|].
  destruct (file e p) as [|x q] eqn:Hf; eexists _, _, _; (split; [done|]);
    (split; [by apply alerter_borne|]); intros y Hy; simpl in Hy;
    rewrite quantite_insert; case_decide as Hp;
    apply alerter_elem_of in Hy as [Hy|(-> & Hq & _)]; try done;
    try (by apply Hs).
  - simpl. unfold seuil_min. lia.
  - subst y. apply Hs in Hy. unfold quantite in Hy. rewrite Hf in Hy.
    simpl in Hy. lia.
Qed.

Lemma ajouter_lot_invariant s e :
  invariant e → ∃ e' o, ajouter_lot s e = Ok (tt, e', o) ∧ invariant e'.
Proof.
  intros He. unfold ajouter_lot. apply for_each_ind; [|done].
  intros x e0. apply ajouter_produit_invariant.
Qed.
End invariants.

(** ** Displays and commands *)

Lemma for_each_pure {A} (body : A → M unit) (out : A → list sortie) l e :
  (∀ x e, body x e = Ok (tt, e, out x)) →
  for_each l body e = Ok (tt, e, concat (out <$> l)).
Proof.
  intros Hbody. induction l as [|x l IH]; [done|].
  rewrite (for_each_cons _ _ _ _ _ _ (Hbody x e)). by rewrite IH.
Qed.

Section commandes.
Context `{Python}.

Lemma afficher_inventaire_run e :
  afficher_inventaire e =
    Ok (tt, e,
        EnteteInventaire
        :: (if bool_decide (stock e = ∅) then [InventaireVide] else [])
        ++ concat ((λ x, [ligne_inventaire x])
                   <$> sort_by cle_le (map_to_list (stock e)))).
Proof.
  unfold afficher_inventaire. run.
  case_bool_decide; simpl;
    (rewrite (for_each_pure _ (λ x, [ligne_inventaire x]));
     [done|by intros [??] ?]).
Qed.

Lemma afficher_colis_run e :
  afficher_colis e =
    Ok (tt, e,
        if bool_decide (liste_colis e = []) then [AucunColis]
        else concat (lignes_colis <$> imap (λ index c, (index, c))
                                        (liste_colis e))).
Proof.
  unfold afficher_colis. run. case_bool_decide; [done|].
  rewrite (for_each_pure _ lignes_colis); [done|].
  intros [index c] e0. run.
  rewrite (for_each_pure _ (λ a, [LigneArticle (art_id a)])); [|done].
  unfold lignes_colis. simpl. repeat f_equal.
  generalize (reverse c) as l.
  induction l as [|a l IH]; [done|]. simpl. by f_equal.
Qed.

(** [preparer_colis] after its loop. *)
Lemma preparer_colis_run s e c e1 o1 :
  for_fold (nettoyer s) [] traiter_commande e = Ok (c, e1, o1) →
  preparer_colis s e =
    let contenu := sort_by vol_desc c in
    if bool_decide (contenu = []) then Ok (tt, e1, o1)
    else Ok (tt,
             mkEntrepot (stock e1) (log_alertes e1) (liste_colis e1 ++ [contenu]),
             o1 ++ [ColisCree (length contenu)]).
Proof.
  intros Hloop. unfold preparer_colis.
  rewrite (bind_ok _ _ _ _ _ _ Hloop). simpl.
  case_bool_decide; run; by rewrite ?app_nil_r.
Qed.

Lemma boucle_commande_invariant l c e :
  invariant e →
  ∃ c' e' o, for_fold l c traiter_commande e = Ok (c', e', o) ∧ invariant e'.
Proof.
  intros He. apply (for_fold_ind (λ _, invariant)); [|done].
  intros b x e0. apply traiter_commande_invariant.
Qed.

Lemma preparer_colis_invariant s e :
  invariant e → ∃ e' o, preparer_colis s e = Ok (tt, e', o) ∧ invariant e'.
Proof.
  intros He.
  destruct (boucle_commande_invariant (nettoyer s) [] e He)
    as (c & e1 & o1 & Hloop & He1).
  rewrite (preparer_colis_run _ _ _ _ _ Hloop). simpl.
  case_bool_decide; eexists _, _; (split; [done|]); done.
Qed.

Lemma executer_invariant c e :
  invariant e → ∃ e' o, executer c e = Ok (tt, e', o) ∧ invariant e'.
Proof.
  intros He. destruct c; simpl.
  - by apply ajouter_lot_invariant.
  - by apply preparer_colis_invariant.
  - rewrite afficher_inventaire_run. by eexists _, _.
  - rewrite afficher_colis_run. by eexists _, _.
  - run. by eexists _, _.
  - run. by eexists _, _.
Qed.

Lemma invariant_vide : invariant entrepot_vide.
Proof.
  split; [split; [apply NoDup_nil_2|simpl; lia]|].
  by intros p ?%elem_of_nil.
Qed.

Lemma run_invariant cs :
  ∃ e o, run cs = Ok (tt, e, o) ∧ invariant e.
Proof.
  unfold run, session.
  destruct (ajouter_lot_invariant (u "A3, A3, B5, B5, C1, C1, A2, A2")
              entrepot_vide invariant_vide) as (e0 & o0 & Hinit & He0).
  destruct (for_each_ind invariant executer cs executer_invariant e0 He0)
    as (e & o & Hcs & He).
  exists e, (o0 ++ o). split; [|done].
  unfold init, initialiser_stock_defaut.
  rewrite (bind_ok _ _ _ _ _ _ Hinit). by rewrite Hcs.
Qed.
End commandes.

(** ** The bound on the log alone *)

Section borne.
Context `{Python}.

Lemma verifier_borne p e :
  log_borne e →
  ∃ e' o, verifier_et_nettoyer_alerte p e = Ok (tt, e', o) ∧ log_borne e'.
Proof.
  intros He. rewrite verifier_run. eexists _, _. split; [done|].
  by apply resoudre_borne.
Qed.

Lemma ajouter_produit_borne p e :
  log_borne e → ∃ e' o, ajouter_produit p e = Ok (tt, e', o) ∧ log_borne e'.
Proof.
  intros He. rewrite ajouter_produit_run.
  destruct (valide p); [|by exists e, [FormatInvalide p]].
  eexists _, _. split; [done|]. by apply resoudre_borne.
Qed.

Lemma traiter_commande_borne c p e :
  log_borne e →
  ∃ c' e' o, traiter_commande c p e = Ok (c', e', o) ∧ log_borne e'.
Proof.
  intros He. rewrite traiter_commande_run.
  case_bool_decide; [by exists c, e, []|].
  destruct (file e p); eexists _, _, _; (split; [done|]);
    by apply alerter_borne.
Qed.

Lemma executer_borne c e :
  log_borne e → ∃ e' o, executer c e = Ok (tt, e', o) ∧ log_borne e'.
Proof.
  intros He. destruct c; simpl.
  - apply for_each_ind; [|done]. intros x e0. apply ajouter_produit_borne.
  - destruct (for_fold_ind (λ _, log_borne) traiter_commande (nettoyer liste)
                (λ b, traiter_commande_borne b) [] e He)
      as (c & e1 & o1 & Hloop & He1).
    rewrite (preparer_colis_run _ _ _ _ _ Hloop). simpl.
    case_bool_decide; eexists _, _; (split; [done|]); done.
  - rewrite afficher_inventaire_run. by eexists _, _.
  - rewrite afficher_colis_run. by eexists _, _.
  - run. by eexists _, _.
  - run. by eexists _, _.
Qed.
End borne.

Lemma list_remove_split x l l' :
  list_remove x l = Some l' →
  ∃ l1 l2, l = l1 ++ x :: l2 ∧ l' = l1 ++ l2 ∧ x ∉ l1.
Proof.
  revert l'. induction l as [|y l IH]; intros l'; simpl; [done|].
  destruct (decide (x = y)) as [->|Hne].
  - intros [= <-]. exists [], l. split_and!; [done..|]. by intros ?%elem_of_nil.
  - destruct (list_remove x l) as [l0|]; simpl; [|done].
    intros [= <-]. destruct (IH l0 eq_refl) as (l1 & l2 & -> & -> & Hx).
    exists (y :: l1), l2. split_and!; [done..|].
    rewrite elem_of_cons. intros [?|?]; congruence.
Qed.

Section resolution.
Context `{Python}.

Lemma ajouter_produit_log p e :
  ∃ e' o, ajouter_produit p e = Ok (tt, e', o)
          ∧ sublist (log_alertes e') (log_alertes e).
Proof.
  rewrite ajouter_produit_run. destruct (valide p); eexists _, _.
  - split; [done|]. apply resoudre_sublist.
  - done.
Qed.

Lemma ajouter_lot_log s e :
  ∃ e' o, ajouter_lot s e = Ok (tt, e', o)
          ∧ sublist (log_alertes e') (log_alertes e).
Proof.
  apply (for_each_ind (λ e', sublist (log_alertes e') (log_alertes e)));
    [|done].
  intros x e1 He1. destruct (ajouter_produit_log x e1) as (e2 & o & Hx & He2).
  exists e2, o. split; [done|]. by etrans.
Qed.
End resolution.

(** ** The stable sort *)

Lemma insert_by_perm {A} (le : A → A → bool) x l : insert_by le x l ≡ₚ x :: l.
Proof.
  induction l as [|y l IH]; simpl; [done|].
  destruct (le x y); [done|]. rewrite IH. apply Permutation_swap.
Qed.

Lemma sort_by_perm {A} (le : A → A → bool) l : sort_by le l ≡ₚ l.
Proof.
  induction l as [|x l IH]; simpl; [done|].
  unfold sort_by in *. simpl. by rewrite insert_by_perm, IH.
Qed.

Lemma sort_by_nil {A} (le : A → A → bool) l : sort_by le l = [] ↔ l = [].
Proof.
  split; [|by intros ->]. intros Hl.
  apply Permutation_nil_r. by rewrite <- Hl, sort_by_perm.
Qed.

Lemma sort_by_length {A} (le : A → A → bool) l :
  length (sort_by le l) = length l.
Proof. by rewrite sort_by_perm. Qed.

Lemma insert_vol_sorted a l :
  StronglySorted vol_ge l → StronglySorted vol_ge (insert_by vol_desc a l).
Proof.
  induction 1 as [|b l Hl IH Hb]; simpl.
  - repeat constructor.
  - unfold vol_desc at 1. destruct (art_vol b <=? art_vol a)%Z eqn:Hab.
    + apply Z.leb_le in Hab. constructor; [by constructor|].
      constructor; [done|]. eapply Forall_impl; [done|].
      unfold vol_ge. intros; lia.
    + apply Z.leb_gt in Hab. constructor; [done|].
      rewrite insert_by_perm. constructor; [|done]. unfold vol_ge. lia.
Qed.

Lemma sort_vol_sorted l : StronglySorted vol_ge (sort_by vol_desc l).
Proof.
  induction l as [|a l IH]; [constructor|]. by apply insert_vol_sorted.
Qed.

Lemma insert_vol_filter v a l :
  filter (λ b, art_vol b = v) (insert_by vol_desc a l)
  = filter (λ b, art_vol b = v) (a :: l).
Proof.
  induction l as [|b l IH]; simpl; [done|].
  unfold vol_desc at 1. destruct (art_vol b <=? art_vol a)%Z eqn:Hab; [done|].
  apply Z.leb_gt in Hab. rewrite !filter_cons in *. rewrite IH.
  repeat case_decide; try done. lia.
Qed.

Lemma sort_vol_filter v l :
  filter (λ b, art_vol b = v) (sort_by vol_desc l)
  = filter (λ b, art_vol b = v) l.
Proof.
  induction l as [|a l IH]; [done|].
  change (sort_by vol_desc (a :: l)) with (insert_by vol_desc a (sort_by vol_desc l)).
  rewrite insert_vol_filter, !filter_cons, IH. done.
Qed.

(** Sortedness and stability determine the result: whatever algorithm
    [list.sort] runs, a stable sort by decreasing volume returns
    [sort_by vol_desc]. *)
Lemma sorted_stable_unique l1 l2 :
  StronglySorted vol_ge l1 → StronglySorted vol_ge l2 →
  (∀ v, filter (λ a, art_vol a = v) l1 = filter (λ a, art_vol a = v) l2) →
  l1 = l2.
Proof.
  intros Hs1. revert l2.
  induction Hs1 as [|a l1 Hs1 IH Ha]; intros l2 Hs2 Hf.
  - destruct l2 as [|b l2]; [done|].
    specialize (Hf (art_vol b)). by rewrite filter_cons_True in Hf by done.
  - destruct Hs2 as [|b l2 Hs2 Hb].
    { specialize (Hf (art_vol a)). by rewrite filter_cons_True in Hf by done. }
    assert (art_vol a = art_vol b) as Hab.
    { apply Z.le_antisymm.
      - assert (a ∈ filter (λ x, art_vol x = art_vol a) (b :: l2)) as Hin.
        { rewrite <- Hf, filter_cons_True by done. apply list_elem_of_here. }
        apply list_elem_of_filter in Hin as [_ [->|Hin]%elem_of_cons]; [done|].
        rewrite Forall_forall in Hb. by apply Hb.
      - assert (b ∈ filter (λ x, art_vol x = art_vol b) (a :: l1)) as Hin.
        { rewrite Hf, filter_cons_True by done. apply list_elem_of_here. }
        apply list_elem_of_filter in Hin as [_ [->|Hin]%elem_of_cons]; [done|].
        rewrite Forall_forall in Ha. by apply Ha. }
    pose proof (Hf (art_vol a)) as Hhead.
    rewrite filter_cons_True in Hhead by done.
    rewrite filter_cons_True in Hhead by done.
    injection Hhead as -> Htail. f_equal. apply IH; [done|].
    intros v. destruct (decide (art_vol b = v)) as [<-|Hv]; [done|].
    specialize (Hf v). by rewrite !filter_cons_False in Hf by done.
Qed.

Lemma sort_vol_unique l l' :
  StronglySorted vol_ge l' →
  (∀ v, filter (λ a, art_vol a = v) l' = filter (λ a, art_vol a = v) l) →
  l' = sort_by vol_desc l.
Proof.
  intros Hs Hf. apply sorted_stable_unique; [done|apply sort_vol_sorted|].
  intros v. by rewrite Hf, sort_vol_filter.
Qed.

Section colis.
Context `{Python}.

Lemma boucle_commande_total l c e :
  ∃ c' e' o, for_fold l c traiter_commande e = Ok (c', e', o)
             ∧ liste_colis e' = liste_colis e.
Proof.
  apply (for_fold_ind (λ _ e', liste_colis e' = liste_colis e)); [|done].
  intros b x e0 He0. rewrite traiter_commande_run.
  case_bool_decide; [by eexists _, _, _|].
  destruct (file e0 x); by eexists _, _, _.
Qed.
End colis.

(** ** What the loop of [preparer_colis] extracts and prints *)

Lemma alerter_rupture p q l : filter est_rupture (alerter p q l).2 = [].
Proof.
  unfold alerter. destruct (seuil_min <=? q); [done|].
  case_bool_decide; [done|]. by destruct (length l <? 3).
Qed.

Lemma resoudre_format p q l : filter est_format_invalide (resoudre p q l).2 = [].
Proof.
  unfold resoudre. case_bool_decide; [|done]. by destruct (seuil_min <=? q).
Qed.

Section extraction.
Context `{Python}.

Lemma boucle_commande_spec l c e :
  ∃ extra e1 o1,
    for_fold l c traiter_commande e = Ok (c ++ extra, e1, o1)
    ∧ liste_colis e1 = liste_colis e
    ∧ (∀ k, quantite e k
            = quantite e1 k + length (filter (λ a, art_id a = k) extra))
    ∧ Forall (λ a, art_id a ∈ l ∧ art_id a ≠ []
                   ∧ volume_de (art_id a) = Ok (art_vol a)) extra
    ∧ length (filter est_rupture o1) + length extra
      = length (filter (λ p, p ≠ []) l).
Proof.
  revert c e. induction l as [|p l IH]; intros c e.
  { exists [], e, []. rewrite app_nil_r. split_and!; done. }
  pose proof (traiter_commande_run c p e) as Hp.
  case_bool_decide as Hblank.
  - destruct (IH c e) as (extra & e1 & o1 & Hl & Ha & Hq & Hx & Hr).
    exists extra, e1, o1. rewrite (for_fold_cons _ _ _ _ _ _ _ _ Hp), Hl.
    split_and!; try done.
    + eapply Forall_impl; [done|]. intros a (? & ? & ?).
      split_and!; try done. by apply elem_of_cons; right.
    + rewrite filter_cons_False by (by intros []). done.
  - destruct (file e p) as [|x q] eqn:Hf.
    + destruct (IH c (mkEntrepot (<[p := []]> (stock e))
                        (alerter p 0 (log_alertes e)).1 (liste_colis e)))
        as (extra & e1 & o1 & Hl & Ha & Hq & Hx & Hr).
      exists extra, e1, (Rupture p :: (alerter p 0 (log_alertes e)).2 ++ o1).
      rewrite (for_fold_cons _ _ _ _ _ _ _ _ Hp), Hl.
      split_and!; try done.
      * intros k. rewrite <- Hq, quantite_insert.
        case_decide; [subst; unfold quantite; by rewrite Hf|done].
      * eapply Forall_impl; [done|]. intros a (? & ? & ?).
        split_and!; try done. by apply elem_of_cons; right.
      * rewrite filter_cons_True by done.
        rewrite filter_cons_True by done. rewrite filter_app.
        rewrite alerter_rupture. simpl. simpl in Hr. lia.
    + destruct (IH (c ++ [Article p (volume p)])
                  (mkEntrepot (<[p := q]> (stock e))
                     (alerter p (length q) (log_alertes e)).1 (liste_colis e)))
        as (extra & e1 & o1 & Hl & Ha & Hq & Hx & Hr).
      exists (Article p (volume p) :: extra), e1,
        ((alerter p (length q) (log_alertes e)).2 ++ o1).
      rewrite (for_fold_cons _ _ _ _ _ _ _ _ Hp), Hl.
      split_and!; try done.
      * by rewrite <- app_assoc.
      * intros k. rewrite filter_cons. simpl.
        specialize (Hq k). rewrite quantite_insert in Hq.
        case_decide as Hk.
        -- subst k. unfold quantite at 1. rewrite Hf. simpl. lia.
        -- done.
      * constructor.
        -- simpl. split_and!; [apply elem_of_cons; by left|done|].
           apply volume_de_run.
        -- eapply Forall_impl; [done|]. intros a (? & ? & ?).
           split_and!; try done. by apply elem_of_cons; right.
      * rewrite filter_app, alerter_rupture. simpl.
        rewrite filter_cons_True by done. simpl. simpl in Hr. lia.
Qed.
End extraction.

Section rupture.
Context `{Python}.

Lemma boucle_commande_rupture l c e :
  (∀ p, p ∈ l → p = [] ∨ quantite e p = 0) →
  ∃ e1 o1,
    for_fold l c traiter_commande e = Ok (c, e1, o1)
    ∧ filter est_rupture o1 = Rupture <$> filter (λ p, p ≠ []) l.
Proof.
  revert e. induction l as [|p l IH]; intros e Hl; [by exists e, []|].
  pose proof (traiter_commande_run c p e) as Hp.
  case_bool_decide as Hblank.
  - destruct (IH e) as (e1 & o1 & Hrun & Ho).
    { intros k Hk. apply Hl. by apply elem_of_cons; right. }
    exists e1, o1. rewrite (for_fold_cons _ _ _ _ _ _ _ _ Hp), Hrun.
    split; [done|]. by rewrite filter_cons_False by (by intros []).
  - destruct (Hl p) as [?|Hq]; [apply elem_of_cons; by left|done|].
    unfold quantite in Hq. apply length_zero_iff_nil in Hq.
    rewrite Hq in Hp.
    destruct (IH (mkEntrepot (<[p := []]> (stock e))
                    (alerter p 0 (log_alertes e)).1 (liste_colis e)))
      as (e1 & o1 & Hrun & Ho).
    { intros k Hk. rewrite quantite_insert. case_decide; [by right|].
      apply Hl. by apply elem_of_cons; right. }
    eexists e1, _. rewrite (for_fold_cons _ _ _ _ _ _ _ _ Hp), Hrun.
    split; [done|]. simpl.
    rewrite !filter_cons_True by done. rewrite filter_app.
    by rewrite alerter_rupture, Ho.
Qed.
End rupture.

(** ** Quantities through [ajouter_lot] *)

Section ajout.
Context `{Python}.

Lemma valide_spec p :
  valide p = true ↔ 2 ≤ length p ∧ ∃ c, p !! 0 = Some c ∧ isalpha c = true.
Proof.
  unfold valide. destruct p as [|c [|d p]]; simpl.
  - split; [done|]. intros [? _]. lia.
  - split; [done|]. intros [? _]. lia.
  - split.
    + intros Hc. split; [lia|]. by exists c.
    + by intros [_ (c' & [= <-] & Hc)].
Qed.

Lemma ajouter_produit_step p e :
  ∃ e' o,
    ajouter_produit p e = Ok (tt, e', o)
    ∧ liste_colis e' = liste_colis e
    ∧ (∀ k, quantite e' k
            = quantite e k
              + length (filter (λ t, t = k ∧ valide t = true) [p]))
    ∧ filter est_format_invalide o
      = FormatInvalide <$> filter (λ t, valide t = false) [p].
Proof.
  rewrite ajouter_produit_run. destruct (valide p) eqn:Hv; eexists _, _;
    (split; [done|]); (split; [done|]); split.
  - intros k. rewrite quantite_insert, filter_cons. simpl.
    case_decide as Hk.
    + subst k. rewrite decide_True by done. rewrite length_app.
      unfold quantite. simpl. lia.
    + rewrite decide_False by (by intros [??]). simpl.
      change (quantite e k = quantite e k + 0). lia.
  - simpl. rewrite resoudre_format.
    rewrite filter_cons_False by (by rewrite Hv). done.
  - intros k. rewrite filter_cons_False by (intros [_ ?]; congruence).
    simpl. lia.
  - rewrite filter_cons_True by done.
    by rewrite filter_cons_True by done.
Qed.

Lemma ajouter_lot_step l e :
  ∃ e' o,
    for_each l ajouter_produit e = Ok (tt, e', o)
    ∧ liste_colis e' = liste_colis e
    ∧ (∀ k, quantite e' k
            = quantite e k
              + length (filter (λ t, t = k ∧ valide t = true) l))
    ∧ filter est_format_invalide o
      = FormatInvalide <$> filter (λ t, valide t = false) l.
Proof.
  revert e. induction l as [|p l IH]; intros e.
  { exists e, []. split_and!; done. }
  destruct (ajouter_produit_step p e) as (e1 & o1 & Hp & Ha1 & Hq1 & Ho1).
  destruct (IH e1) as (e2 & o2 & Hl & Ha2 & Hq2 & Ho2).
  exists e2, (o1 ++ o2). rewrite (for_each_cons _ _ _ _ _ _ Hp), Hl.
  split_and!; [done|congruence| |].
  - intros k. rewrite Hq2, Hq1.
    change (p :: l) with ([p] ++ l). rewrite filter_app, length_app. lia.
  - rewrite filter_app, Ho1, Ho2.
    change (p :: l) with ([p] ++ l). by rewrite filter_app, fmap_app.
Qed.
End ajout.

(** ** The alert check in the loop of [preparer_colis] *)

Section prelevement.
Context `{Python}.

Lemma prelever_run c p e :
  prelever c p e =
    match file e p with
    | x :: q =>
        Ok (c ++ [Article p (volume p)],
            mkEntrepot (<[p := q]> (stock e)) (log_alertes e) (liste_colis e),
            [])
    | [] => Ok (c, e, [Rupture p])
    end.
Proof.
  unfold prelever. rewrite (bind_ok _ _ _ _ _ _ (disponible_run p e)).
  destruct (file e p) as [|x q] eqn:Hf; simpl; [by run|].
  assert (stock e !! p = Some (x :: q)) as Hp.
  { unfold file in Hf. destruct (stock e !! p); simpl in Hf; by subst. }
  rewrite volume_de_run, lift_ok_bind_run.
  rewrite (bind_ok _ _ _ _ _ _ (deque_popleft_run p e x q Hp)). by run.
Qed.
End prelevement.

(** ** The volume of a code *)

Lemma chiffre_bounds c : chiffre c = true → (48 ≤ c ∧ c ≤ 57)%N.
Proof.
  unfold chiffre. intros [?%N.leb_le ?%N.leb_le]%andb_prop. done.
Qed.

Lemma decimal_de_nonneg s acc : (0 ≤ acc)%Z → (0 ≤ decimal_de acc s)%Z.
Proof.
  revert acc. induction s as [|c s IH]; intros acc Hacc; simpl; [done|].
  apply IH. lia.
Qed.

Lemma scan_digits_chiffres s prev acc n :
  forallb chiffre s = true →
  ∃ prev', scan_digits prev acc n s
           = Some (decimal_de acc s, n + length s, prev', [])
           ∧ (s = [] ∧ prev' = prev ∨ chiffre prev' = true).
Proof.
  revert prev acc n. induction s as [|c s IH]; intros prev acc n Hs.
  { exists prev. simpl. rewrite Nat.add_0_r. split; [done|by left]. }
  simpl in Hs. apply andb_prop in Hs as [Hc Hs].
  pose proof (chiffre_bounds c Hc) as [Hlo Hhi]. simpl.
  replace (c =? souligne)%N with false
    by (symmetry; apply N.eqb_neq; unfold souligne; lia).
  unfold digit_value. fold (chiffre c). rewrite Hc.
  destruct (IH c (10 * acc + Z.of_N (c - 48))%Z (S n) Hs) as (prev' & -> & Hp).
  exists prev'. split.
  - by rewrite Nat.add_succ_r.
  - right. by destruct Hp as [[-> ->]|?].
Qed.

Section volumes.
Context `{Python}.

Lemma transform_chiffres s :
  forallb chiffre s = true → mapM transform_char s = Some s.
Proof.
  induction s as [|c s IH]; [done|]. intros Hcs. simpl in Hcs.
  apply andb_prop in Hcs as [Hc Hs].
  pose proof (chiffre_bounds c Hc) as [Hlo Hhi].
  change (mapM transform_char (c :: s))
    with (transform_char c ≫= λ y, mapM transform_char s
                                    ≫= λ k, mret (y :: k)).
  rewrite (IH Hs). unfold transform_char.
  by replace (c <? 127)%N with true by (symmetry; apply N.ltb_lt; lia).
Qed.

Lemma py_int_chiffres s :
  forallb chiffre s = true → s ≠ [] → exceeds_limit (length s) = false →
  py_int s = Ok (decimal s).
Proof.
  intros Hs Hne Hlim. unfold py_int. rewrite (transform_chiffres s Hs).
  destruct s as [|c s]; [done|].
  pose proof Hs as [Hc _]%andb_prop.
  pose proof (chiffre_bounds c Hc) as [Hlo Hhi].
  unfold long_from_ascii.
  assert (lstrip_by Py_ISSPACE (c :: s) = c :: s) as ->.
  { simpl. unfold Py_ISSPACE.
    replace (c <=? 13)%N with false by (symmetry; apply N.leb_gt; lia).
    replace (c =? 32)%N with false by (symmetry; apply N.eqb_neq; lia).
    by rewrite andb_false_r. }
  replace (c =? 43)%N with false by (symmetry; apply N.eqb_neq; lia).
  replace (c =? 45)%N with false by (symmetry; apply N.eqb_neq; lia).
  replace (c =? souligne)%N with false
    by (symmetry; apply N.eqb_neq; unfold souligne; lia).
  destruct (scan_digits_chiffres (c :: s) 0%N 0%Z 0 Hs)
    as (prev' & -> & [[? _]|Hp]); [done|].
  pose proof (chiffre_bounds prev' Hp) as [Hlo' Hhi'].
  replace (prev' =? souligne)%N with false
    by (symmetry; apply N.eqb_neq; unfold souligne; lia).
  simpl Nat.add. simpl Nat.eqb. simpl in Hlim. rewrite Hlim. simpl.
  f_equal. unfold decimal. simpl. by destruct (decimal_de _ s).
Qed.
End volumes.

Section volumes_suite.
Context `{Python}.

Lemma transform_ascii c : (c < 127)%N → transform_char c = Some c.
Proof. intros Hc%N.ltb_lt. unfold transform_char. by rewrite Hc. Qed.

Lemma py_int_lettre d s :
  (65 ≤ d ∧ d ≤ 90)%N → py_int (d :: s) = Raise ValueError.
Proof.
  intros [Hlo Hhi]. unfold py_int.
  change (mapM transform_char (d :: s))
    with (transform_char d ≫= λ y, mapM transform_char s
                                    ≫= λ k, mret (y :: k)).
  rewrite transform_ascii by lia.
  destruct (mapM transform_char s) as [a|]; [|done]. simpl.
  unfold long_from_ascii.
  assert (lstrip_by Py_ISSPACE (d :: a) = d :: a) as ->.
  { simpl. unfold Py_ISSPACE.
    replace (d <=? 13)%N with false by (symmetry; apply N.leb_gt; lia).
    replace (d =? 32)%N with false by (symmetry; apply N.eqb_neq; lia).
    by rewrite andb_false_r. }
  replace (d =? 43)%N with false by (symmetry; apply N.eqb_neq; lia).
  replace (d =? 45)%N with false by (symmetry; apply N.eqb_neq; lia).
  replace (d =? souligne)%N with false
    by (symmetry; apply N.eqb_neq; unfold souligne; lia).
  simpl.
  replace (d =? souligne)%N with false
    by (symmetry; apply N.eqb_neq; unfold souligne; lia).
  unfold digit_value.
  replace (d <=? 57)%N with false by (symmetry; apply N.leb_gt; lia).
  by rewrite andb_false_r.
Qed.
End volumes_suite.

Lemma pack_archive_total `{Python} s e :
  ∃ e' o, preparer_colis s e = Ok (tt, e', o).
Proof.
  destruct (boucle_commande_total (nettoyer s) [] e)
    as (c & e1 & o1 & Hloop & _).
  rewrite (preparer_colis_run _ _ _ _ _ Hloop). simpl.
  case_bool_decide; by eexists _, _.
Qed.

(** * The properties of the specification *)

(** C1 — the alert log. In every state a session reaches, the log holds
    no code twice and at most 3 codes, and every command, as well as a
    direct call of either alert method, keeps it so. [enregistrer_alerte]
    either leaves the log as it is or appends its code, and it appends
    only when the quantity of the code is below the threshold 2, the code
    is absent from the log and the log holds fewer than 3 codes. Called
    while the log holds 3 codes it changes neither the log nor the
    archive, and when the alert was due (low quantity, code absent) all it
    prints is the log-full notice. *)
Theorem alert_log_invariant `{Python} :
  (∀ cs, ∃ e o, run cs = Ok (tt, e, o) ∧ log_borne e)
  ∧ (∀ c e, log_borne e →
       ∃ e' o, executer c e = Ok (tt, e', o) ∧ log_borne e')
  ∧ (∀ p e, log_borne e →
       ∃ e' o, verifier_et_nettoyer_alerte p e = Ok (tt, e', o) ∧ log_borne e')
  ∧ (∀ p e, ∃ e' o,
       enregistrer_alerte p e = Ok (tt, e', o)
       ∧ (log_borne e → log_borne e')
       ∧ (log_alertes e' = log_alertes e
          ∨ (log_alertes e' = log_alertes e ++ [p]
             ∧ quantite e p < seuil_min
             ∧ (p ∉ log_alertes e)
             ∧ length (log_alertes e) < 3))
       ∧ (length (log_alertes e) = 3 →
          log_alertes e' = log_alertes e
          ∧ liste_colis e' = liste_colis e
          ∧ (quantite e p < seuil_min → p ∉ log_alertes e →
             o = [LogPlein p]))).
Proof.
  split_and!.
  - intros cs. destruct (run_invariant cs) as (e & o & Hrun & [Hb _]).
    by exists e, o.
  - apply executer_borne.
  - apply verifier_borne.
  - intros p e. rewrite enregistrer_run. eexists _, _. split; [done|].
    simpl. split_and!.
    + apply alerter_borne.
    + unfold alerter. destruct (seuil_min <=? quantite e p) eqn:Hq; [by left|].
      apply Nat.leb_gt in Hq. case_bool_decide as Hin; [by left|].
      destruct (length (log_alertes e) <? 3) eqn:Hl; [|by left].
      apply Nat.ltb_lt in Hl. by right.
    + intros Hlen. unfold alerter. rewrite Hlen. split_and!.
      * destruct (seuil_min <=? quantite e p); [done|]. by case_bool_decide.
      * done.
      * intros Hq%Nat.leb_gt Hin. rewrite Hq.
        by rewrite bool_decide_eq_false_2.
Qed.

(** C2 — the resolution check. For an accepted code, [ajouter_lot]
    appends one unit and then runs [verifier_et_nettoyer_alerte] on the
    state so obtained. [verifier_et_nettoyer_alerte] changes
    neither a quantity nor the archive and, on the log: a code of the log
    whose quantity is at least 2 is taken out of it (its first occurrence,
    the only one when the log has no duplicate) with the resolved notice;
    a code of the log whose quantity is below 2 stays, with the still-low
    notice; for a code absent from the log nothing changes and nothing is
    printed. [ajouter_lot] never adds to the log: the log after it is a
    sublist of the log before. Once a code has left a duplicate-free log,
    adding it again leaves the log unchanged. *)
Theorem resolution_check `{Python} :
  (∀ p e, ∃ e' o,
     verifier_et_nettoyer_alerte p e = Ok (tt, e', o)
     ∧ liste_colis e' = liste_colis e
     ∧ (∀ k, quantite e' k = quantite e k)
     ∧ (p ∈ log_alertes e → seuil_min ≤ quantite e p →
        (∃ l1 l2, log_alertes e = l1 ++ p :: l2 ∧ (p ∉ l1)
                  ∧ log_alertes e' = l1 ++ l2)
        ∧ o = [Resolu p (quantite e p)]
        ∧ (NoDup (log_alertes e) → p ∉ log_alertes e'))
     ∧ (p ∈ log_alertes e → quantite e p < seuil_min →
        log_alertes e' = log_alertes e ∧ o = [StockBas p (quantite e p)])
     ∧ (p ∉ log_alertes e → log_alertes e' = log_alertes e ∧ o = []))
  ∧ (∀ p e, valide p = true →
       ∃ e1 e' o,
         deque_append p p e = Ok (tt, e1, [])
         ∧ quantite e1 p = S (quantite e p)
         ∧ log_alertes e1 = log_alertes e
         ∧ verifier_et_nettoyer_alerte p e1 = Ok (tt, e', o)
         ∧ ajouter_produit p e = Ok (tt, e', o))
  ∧ (∀ s e, ∃ e' o,
       ajouter_lot s e = Ok (tt, e', o)
       ∧ sublist (log_alertes e') (log_alertes e))
  ∧ (∀ p e, p ∉ log_alertes e →
       ∃ e' o, ajouter_produit p e = Ok (tt, e', o)
               ∧ log_alertes e' = log_alertes e).
Proof.
  split_and!.
  - intros p e. rewrite verifier_run. eexists _, _. split; [done|]. simpl.
    split_and!; [done| | | |].
    + intros k. rewrite quantite_insert. case_decide; [by subst|done].
    + intros Hin Hq%Nat.leb_le. unfold resoudre.
      rewrite bool_decide_eq_true_2, Hq by done. simpl.
      destruct (list_remove_elem_of _ _ Hin) as [l' Hl']. rewrite Hl'. simpl.
      split_and!; [|done|].
      * destruct (list_remove_split _ _ _ Hl') as (l1 & l2 & ? & ? & ?).
        by exists l1, l2.
      * intros Hnd. by destruct (list_remove_NoDup _ _ _ Hnd Hl').
    + intros Hin Hq%Nat.leb_gt. unfold resoudre.
      by rewrite bool_decide_eq_true_2, Hq.
    + intros Hin. unfold resoudre. by rewrite bool_decide_eq_false_2.
  - intros p e Hv. eexists _, _, _. split; [apply deque_append_run|].
    rewrite verifier_run, ajouter_produit_run, Hv. unfold quantite.
    rewrite file_insert_eq, length_app. simpl.
    rewrite insert_insert_eq, Nat.add_1_r. done.
  - apply ajouter_lot_log.
  - intros p e Hin. rewrite ajouter_produit_run.
    destruct (valide p); eexists _, _; (split; [done|]); [|done].
    simpl. unfold resoudre. by rewrite bool_decide_eq_false_2.
Qed.

(** C3, as the code has it — the alert check in a package. A blank token
    is skipped before anything else: the state is unchanged, nothing is
    printed and [enregistrer_alerte] is not run. For every other token,
    whether or not it would pass the format check of [ajouter_lot],
    [enregistrer_alerte] runs on that token in the state left by the
    availability check and the pop attempt, whatever their outcome: a
    backorder notice and no unit when the code is out of stock, one unit
    less and no notice otherwise. *)
Theorem pack_alert_check `{Python} :
  (∀ c e, traiter_commande c [] e = Ok (c, e, []))
  ∧ (∀ c p e, p ≠ [] →
       ∃ c1 e1 o1 e2 o2,
         prelever c p e = Ok (c1, e1, o1)
         ∧ enregistrer_alerte p e1 = Ok (tt, e2, o2)
         ∧ traiter_commande c p e = Ok (c1, e2, o1 ++ o2)
         ∧ (quantite e p = 0 →
            c1 = c ∧ o1 = [Rupture p] ∧ quantite e1 p = 0)
         ∧ (0 < quantite e p →
            length c1 = S (length c) ∧ o1 = []
            ∧ S (quantite e1 p) = quantite e p)).
Proof.
  split.
  - intros c e. by rewrite traiter_commande_run.
  - intros c p e Hp. rewrite traiter_commande_run, prelever_run.
    rewrite bool_decide_eq_false_2 by done. unfold quantite.
    destruct (file e p) as [|x q] eqn:Hf; eexists _, _, _, _, _;
      (split; [done|]); rewrite enregistrer_run; (split; [done|]).
    + unfold quantite. rewrite Hf. simpl. split_and!; try done. lia.
    + unfold quantite. rewrite file_insert_eq. simpl.
      rewrite insert_insert_eq. split_and!; try done.
      rewrite length_app. simpl. intros _. split_and!; [lia|done|done].
Qed.

(** ** Reading a quantity *)

(** What [len(self.stock[k])] does in every state: the value read is the
    length of the queue, 0 for an unknown code; the log, the archive,
    every quantity and every other key are unchanged; a code already in
    the dictionary leaves the state as it is, and an unknown code is
    inserted with an empty queue. *)
Lemma quantity_read k e :
  ∃ e',
    stock_getitem k e = Ok (file e k, e', [])
    ∧ log_alertes e' = log_alertes e
    ∧ liste_colis e' = liste_colis e
    ∧ (∀ k', quantite e' k' = quantite e k')
    ∧ (∀ k', k' ≠ k → stock e' !! k' = stock e !! k')
    ∧ (is_Some (stock e !! k) → e' = e)
    ∧ (stock e !! k = None → file e k = [] ∧ stock e' !! k = Some []).
Proof.
  rewrite stock_getitem_run. eexists. split; [done|]. simpl. split_and!; try done.
  - intros k'. rewrite quantite_insert. case_decide; [by subst|done].
  - intros k' Hk. by rewrite lookup_insert_ne.
  - intros [q Hq]. unfold file. rewrite Hq. simpl. rewrite insert_id by done.
    by destruct e.
  - intros Hk. unfold file. rewrite Hk. simpl. by rewrite lookup_insert_eq.
Qed.

(** C4, at an unknown code — on the warehouse [Entrepot()] builds, the
    availability test of [preparer_colis] reads the unknown code "ZZ"
    without touching the state, but the quantity read of
    [enregistrer_alerte] that follows inserts "ZZ" with an empty queue;
    after packing "ZZ" the inventory display lists the code with
    quantity 0. *)
Lemma quantity_read_inserts_key :
  ∃ e0 o0 e1 e2 o2 e3 o3,
    @run ascii_python [] = Ok (tt, e0, o0)
    ∧ stock e0 !! u "ZZ" = None
    ∧ disponible (u "ZZ") e0 = Ok (false, e0, [])
    ∧ stock_getitem (u "ZZ") e0 = Ok ([], e1, [])
    ∧ stock e1 !! u "ZZ" = Some []
    ∧ enregistrer_alerte (u "ZZ") e0 = Ok (tt, e2, o2)
    ∧ stock e2 !! u "ZZ" = Some []
    ∧ @run ascii_python [Colis (u "ZZ"); VoirStock] = Ok (tt, e3, o3)
    ∧ stock e3 !! u "ZZ" = Some []
    ∧ LigneProduit (u "ZZ") 0 true ∈ o3.
Proof.
  eexists _, _, _, _, _, _, _.
  split_and!; try (vm_compute; reflexivity).
  vm_compute. repeat first [apply list_elem_of_here | apply list_elem_of_further].
Qed.

(** C5 — the package is sorted. The loop of [preparer_colis] never fails
    and collects the extracted items: each is a token of the order with
    its volume, and each stands for one unit taken out of the stock. The
    contents that [preparer_colis] archives are these items stably sorted
    by decreasing volume: a permutation of the extracted items, with
    volumes in decreasing order, in which the items of any given volume
    keep their extraction order.
    With A1, B5 and C3 in stock, packing "A1,B5,C3" archives
    [B5 (5), C3 (3), A1 (1)]. *)
Theorem pack_sorted :
  (∀ (H : Python) (s : str) (e : Entrepot),
     ∃ contenu e1 o1,
       for_fold (nettoyer s) [] traiter_commande e = Ok (contenu, e1, o1)
       ∧ Forall (λ a, art_id a ∈ nettoyer s
                      ∧ volume_de (art_id a) = Ok (art_vol a)) contenu
       ∧ (∀ k, quantite e k
               = quantite e1 k + length (filter (λ a, art_id a = k) contenu))
       ∧ sort_by vol_desc contenu ≡ₚ contenu
       ∧ StronglySorted vol_ge (sort_by vol_desc contenu)
       ∧ (∀ v, filter (λ a, art_vol a = v) (sort_by vol_desc contenu)
               = filter (λ a, art_vol a = v) contenu)
       ∧ (contenu ≠ [] →
          ∃ o, preparer_colis s e
               = Ok (tt,
                     mkEntrepot (stock e1) (log_alertes e1)
                       (liste_colis e ++ [sort_by vol_desc contenu]),
                     o)))
  ∧ (∃ e0 o0 e o,
       @run ascii_python [Ajout (u "A1,B5,C3")] = Ok (tt, e0, o0)
       ∧ @preparer_colis ascii_python (u "A1,B5,C3") e0 = Ok (tt, e, o)
       ∧ liste_colis e = [[Article (u "B5") 5; Article (u "C3") 3;
                           Article (u "A1") 1]]).
Proof.
  split.
  - intros H s e.
    destruct (boucle_commande_spec (nettoyer s) [] e)
      as (c & e1 & o1 & Hloop & Harch & Hq & Hx & _).
    simpl in Hloop. exists c, e1, o1. split_and!; [done| |done| | | |].
    + eapply Forall_impl; [done|]. by intros a (? & _ & ?).
    + apply sort_by_perm.
    + apply sort_vol_sorted.
    + intros v. apply sort_vol_filter.
    + intros Hc. rewrite (preparer_colis_run _ _ _ _ _ Hloop). simpl.
      rewrite bool_decide_eq_false_2 by (by rewrite sort_by_nil).
      rewrite Harch. by eexists.
  - vm_compute. eexists _, _, _, _. split_and!; reflexivity.
Qed.

(** C6 — the archive. [preparer_colis] never fails. Its contents are the
    units it took out of the stock; it prints one backorder notice for
    each non-blank token that yields no unit. When the contents are empty
    the archive is unchanged and no success line is printed; otherwise
    exactly one package, the sorted contents, is appended to the archive
    and the last line printed reports the number of items. When every
    token is blank or out of stock, the contents are empty, the archive
    is unchanged and the backorder notices are those of the non-blank
    tokens, one each, in order. *)
Theorem pack_archive `{Python} (s : str) (e : Entrepot) :
  ∃ contenu e1 o1 e' o,
    for_fold (nettoyer s) [] traiter_commande e = Ok (contenu, e1, o1)
    ∧ preparer_colis s e = Ok (tt, e', o)
    ∧ (∀ k, quantite e k
            = quantite e' k + length (filter (λ a, art_id a = k) contenu))
    ∧ length (filter est_rupture o) + length contenu
      = length (filter (λ p, p ≠ []) (nettoyer s))
    ∧ (contenu = [] → liste_colis e' = liste_colis e ∧ o = o1)
    ∧ (contenu ≠ [] →
       liste_colis e' = liste_colis e ++ [sort_by vol_desc contenu]
       ∧ o = o1 ++ [ColisCree (length contenu)])
    ∧ ((∀ p, p ∈ nettoyer s → p = [] ∨ quantite e p = 0) →
       contenu = []
       ∧ liste_colis e' = liste_colis e
       ∧ filter est_rupture o = Rupture <$> filter (λ p, p ≠ []) (nettoyer s)).
Proof.
  destruct (boucle_commande_spec (nettoyer s) [] e)
    as (c & e1 & o1 & Hloop & Harch & Hq & _ & Hr).
  simpl in Hloop. pose proof (preparer_colis_run _ _ _ _ _ Hloop) as Hrun.
  simpl in Hrun. exists c, e1, o1.
  destruct (decide (c = [])) as [->|Hc].
  - exists e1, o1. split_and!; try done.
    intros Hl. destruct (boucle_commande_rupture _ [] e Hl) as (e2 & o2 & Hl2 & Ho).
    rewrite Hloop in Hl2. injection Hl2 as <- <-. done.
  - rewrite bool_decide_eq_false_2 in Hrun by (by rewrite sort_by_nil).
    eexists _, _. split_and!; try done.
    + rewrite filter_app. simpl. rewrite length_app. simpl. lia.
    + intros _. by rewrite Harch, sort_by_length.
    + intros Hl. destruct (boucle_commande_rupture _ [] e Hl) as (e2 & o2 & Hl2 & Ho).
      rewrite Hloop in Hl2. by injection Hl2 as ->.
Qed.

(** C7, as the code has it — the volume. The volume that [preparer_colis]
    records for a code is [int] of the characters from index 1 on when
    [int] accepts them, and 0 when it raises [ValueError]; computing it
    never fails, and the item is extracted in both cases. A non-empty
    suffix of ASCII digits within the conversion limit gives the
    non-negative number it denotes; an empty suffix and a suffix that
    starts with an ASCII capital letter give 0. [int] accepts more than
    unsigned numbers, so the volume can be negative: "A-5" has volume -5,
    "A+5" has 5, "A1_0" has 10 and "A 5" has 5. *)
Theorem volume_of_token :
  (∀ (H : Python),
     (∀ p, ∃ v, volume_de p = Ok v
                ∧ match py_int (drop 1 p) with
                  | Ok z => v = z
                  | Raise _ => v = 0%Z
                  end)
     ∧ (∀ c s, forallb chiffre s = true → s ≠ [] →
               exceeds_limit (length s) = false →
               volume_de (c :: s) = Ok (decimal s) ∧ (0 ≤ decimal s)%Z)
     ∧ (∀ c, volume_de [c] = Ok 0%Z)
     ∧ (∀ c d s, (65 ≤ d ∧ d ≤ 90)%N → volume_de (c :: d :: s) = Ok 0%Z)
     ∧ (∀ contenu p e x q, p ≠ [] → stock e !! p = Some (x :: q) →
          ∃ v e' o, volume_de p = Ok v
                    ∧ traiter_commande contenu p e
                      = Ok (contenu ++ [Article p v], e', o)
                    ∧ file e' p = q))
  ∧ (@volume_de ascii_python (u "A3") = Ok 3%Z
     ∧ @volume_de ascii_python (u "AB") = Ok 0%Z
     ∧ @volume_de ascii_python (u "A-5") = Ok (-5)%Z
     ∧ @volume_de ascii_python (u "A+5") = Ok 5%Z
     ∧ @volume_de ascii_python (u "A1_0") = Ok 10%Z
     ∧ @volume_de ascii_python (u "A 5") = Ok 5%Z).
Proof.
  split; [intros H; split_and!|by vm_compute].
  - intros p. exists (volume p). split; [apply volume_de_run|].
    unfold volume. by destruct (py_int (drop 1 p)).
  - intros c s Hs Hne Hlim. split.
    + unfold volume_de. simpl. by rewrite py_int_chiffres.
    + by apply decimal_de_nonneg.
  - done.
  - intros c d s Hd. unfold volume_de. simpl. by rewrite py_int_lettre.
  - intros contenu p e x q Hp Hst. exists (volume p).
    rewrite traiter_commande_run, bool_decide_eq_false_2 by done.
    unfold file at 1. rewrite Hst. simpl. eexists _, _.
    split_and!; [apply volume_de_run|done|]. by rewrite file_insert_eq.
Qed.

(** C8 — adding stock. The format check accepts a code when it has at
    least 2 characters and its first character is alphabetic. Adding an
    accepted code appends one unit, the code itself, at the back of its
    queue, so that its quantity grows by exactly one, and touches no
    other queue; a rejected code is skipped: the state is unchanged and
    the only line printed is the invalid-format diagnostic. [ajouter_lot]
    never fails and handles every token of the batch: each quantity grows
    by the number of accepted tokens equal to the code, and the
    invalid-format diagnostics are those of the rejected tokens, one each,
    in order. A batch of the single token "9X" leaves every state
    unchanged. *)
Theorem add_batch_quantities :
  (∀ (H : Python),
     (∀ p, valide p = true
           ↔ 2 ≤ length p ∧ ∃ c, p !! 0 = Some c ∧ isalpha c = true)
     ∧ (∀ p e, valide p = true →
          ∃ e' o, ajouter_produit p e = Ok (tt, e', o)
                  ∧ file e' p = file e p ++ [p]
                  ∧ quantite e' p = S (quantite e p)
                  ∧ (∀ k, k ≠ p → stock e' !! k = stock e !! k))
     ∧ (∀ p e, valide p = false →
          ajouter_produit p e = Ok (tt, e, [FormatInvalide p]))
     ∧ (∀ s e, ∃ e' o,
          ajouter_lot s e = Ok (tt, e', o)
          ∧ (∀ k, quantite e' k
                  = quantite e k
                    + length (filter (λ t, t = k ∧ valide t = true)
                                (nettoyer s)))
          ∧ filter est_format_invalide o
            = FormatInvalide <$> filter (λ t, valide t = false) (nettoyer s))
     ∧ (∀ s p e, nettoyer s = [p] → valide p = true →
          ∃ e' o, ajouter_lot s e = Ok (tt, e', o)
                  ∧ quantite e' p = S (quantite e p)))
  ∧ (∀ e, @ajouter_lot ascii_python (u "9X") e
          = Ok (tt, e, [FormatInvalide (u "9X")])).
Proof.
  split; [intros H; split_and!|].
  - apply valide_spec.
  - intros p e Hv. rewrite ajouter_produit_run, Hv. eexists _, _.
    split; [done|]. split_and!.
    + by rewrite file_insert_eq.
    + unfold quantite at 1. rewrite file_insert_eq, length_app.
      unfold quantite. simpl. lia.
    + intros k Hk. simpl. by rewrite lookup_insert_ne.
  - intros p e Hv. by rewrite ajouter_produit_run, Hv.
  - intros s e. destruct (ajouter_lot_step (nettoyer s) e)
      as (e' & o & Hrun & _ & Hq & Ho).
    by exists e', o.
  - intros s p e Hs Hv. destruct (ajouter_lot_step (nettoyer s) e)
      as (e' & o & Hrun & _ & Hq & _).
    exists e', o. split; [done|]. rewrite Hq, Hs.
    rewrite filter_cons_True by done. simpl. lia.
  - intros e. unfold ajouter_lot.
    change (@nettoyer ascii_python (u "9X")) with [u "9X"].
    simpl. rewrite (bind_ok _ _ _ _ _ _
                      (@ajouter_produit_run ascii_python (u "9X") e)).
    done.
Qed.

(** C9, as the code has it — no exception. In every state and for every
    input string, [ajouter_lot], [preparer_colis], both alert methods,
    both displays and whole sessions return normally; the displays leave
    the state unchanged. A malformed code, an unavailable code and a full
    log each print their diagnostic and the rest of the input is handled
    (C8 and C6 count the tokens). An unparseable volume suffix prints no
    line at all: the item is taken with volume 0, and the only lines
    printed for it are those of the alert check that follows. *)
Theorem no_exception `{Python} (e : Entrepot) :
  (∀ s, ∃ e' o, ajouter_lot s e = Ok (tt, e', o))
  ∧ (∀ s, ∃ e' o, preparer_colis s e = Ok (tt, e', o))
  ∧ (∀ p, ∃ e' o, enregistrer_alerte p e = Ok (tt, e', o))
  ∧ (∀ p, ∃ e' o, verifier_et_nettoyer_alerte p e = Ok (tt, e', o))
  ∧ (∃ o, afficher_inventaire e = Ok (tt, e, o))
  ∧ (∃ o, afficher_colis e = Ok (tt, e, o))
  ∧ (∀ cs, ∃ e' o, run cs = Ok (tt, e', o))
  ∧ (∀ p, valide p = false →
          ajouter_produit p e = Ok (tt, e, [FormatInvalide p]))
  ∧ (∀ c p, p ≠ [] → quantite e p = 0 →
            ∃ e' o, traiter_commande c p e = Ok (c, e', Rupture p :: o))
  ∧ (∀ p, quantite e p < seuil_min → p ∉ log_alertes e →
          3 ≤ length (log_alertes e) →
          ∃ e', enregistrer_alerte p e = Ok (tt, e', [LogPlein p])
                ∧ log_alertes e' = log_alertes e)
  ∧ (∀ c p x q, p ≠ [] → stock e !! p = Some (x :: q) →
                py_int (drop 1 p) = Raise ValueError →
                ∃ e1 e' o,
                  deque_popleft p e = Ok (x, e1, [])
                  ∧ enregistrer_alerte p e1 = Ok (tt, e', o)
                  ∧ traiter_commande c p e = Ok (c ++ [Article p 0], e', o)).
Proof.
  split_and!.
  - intros s. destruct (ajouter_lot_step (nettoyer s) e) as (e' & o & ? & _).
    by exists e', o.
  - intros s. destruct (pack_archive_total s e) as (e' & o & ?).
    by exists e', o.
  - intros p. rewrite enregistrer_run. by eexists _, _.
  - intros p. rewrite verifier_run. by eexists _, _.
  - rewrite afficher_inventaire_run. by eexists.
  - rewrite afficher_colis_run. by eexists.
  - intros cs. destruct (run_invariant cs) as (e' & o & ? & _). by exists e', o.
  - intros p Hv. by rewrite ajouter_produit_run, Hv.
  - intros c p Hp Hq. rewrite traiter_commande_run.
    rewrite bool_decide_eq_false_2 by done.
    apply length_zero_iff_nil in Hq. rewrite Hq. by eexists _, _.
  - intros p Hq%Nat.leb_gt Hin Hlen%Nat.ltb_ge. rewrite enregistrer_run.
    unfold alerter. rewrite Hq, bool_decide_eq_false_2, Hlen by done.
    by eexists.
  - intros c p x q Hp Hst Hint.
    eexists _, _, _. split; [by apply deque_popleft_run|].
    rewrite enregistrer_run. split; [done|].
    rewrite traiter_commande_run, bool_decide_eq_false_2 by done.
    unfold file at 1. rewrite Hst. simpl. unfold volume. rewrite Hint.
    unfold quantite. rewrite file_insert_eq. simpl.
    by rewrite insert_insert_eq.
Qed.

(** C10 — in every state a session reaches, every code of the alert log
    has a quantity below the threshold 2. *)
Theorem alerts_below_threshold `{Python} (cs : list commande) :
  ∃ e o, run cs = Ok (tt, e, o)
         ∧ Forall (λ p, quantite e p < seuil_min) (log_alertes e).
Proof.
  destruct (run_invariant cs) as (e & o & Hrun & [_ Hs]).
  exists e, o. split; [done|]. by apply Forall_forall.
Qed.

(** ** Counterexamples to the specification as written *)

(** C3 fails on a blank token. On the warehouse [Entrepot()] builds,
    packing "," (two blank tokens) changes nothing and prints nothing,
    although [enregistrer_alerte] run on the empty code in that state
    would log it and print the alert notice; and on the empty code the
    loop body is not the pop attempt followed by [enregistrer_alerte]. *)
Lemma blank_token_skips_alert_check :
  (∃ e0 o0 e',
     @run ascii_python [] = Ok (tt, e0, o0)
     ∧ @nettoyer ascii_python (u ",") = [[]; []]
     ∧ @preparer_colis ascii_python (u ",") e0 = Ok (tt, e0, [])
     ∧ log_alertes e0 = []
     ∧ enregistrer_alerte [] e0 = Ok (tt, e', [AlerteActivee []])
     ∧ log_alertes e' = [[]])
  ∧ ¬ ∃ c1 e1 o1 e2 o2,
        @prelever ascii_python [] [] entrepot_vide = Ok (c1, e1, o1)
        ∧ enregistrer_alerte [] e1 = Ok (tt, e2, o2)
        ∧ @traiter_commande ascii_python [] [] entrepot_vide
          = Ok (c1, e2, o1 ++ o2).
Proof.
  split.
  - eexists _, _, _. split_and!; vm_compute; reflexivity.
  - intros (c1 & e1 & o1 & e2 & o2 & Hpre & _ & Htr).
    rewrite prelever_run in Hpre. rewrite traiter_commande_run in Htr.
    simpl in Hpre, Htr. injection Hpre as <- <- <-. by injection Htr.
Qed.

(** C7 fails on a signed suffix: "A-5" passes the format check, and the
    package made of it records the volume -5. *)
Lemma volume_negative :
  @valide ascii_python (u "A-5") = true
  ∧ @volume_de ascii_python (u "A-5") = Ok (-5)%Z
  ∧ ∃ e o, @run ascii_python [Ajout (u "a-5"); Colis (u "a-5")] = Ok (tt, e, o)
           ∧ liste_colis e = [[Article (u "A-5") (-5)]].
Proof. vm_compute. split_and!; try done. by eexists _, _. Qed.

(** C9 fails on the parse fallback: with three units of "AB" in stock,
    [int] rejects the suffix "B", the item is packed with volume 0, and
    the only line the whole session prints is the success line of the
    package: the unparseable suffix gets no diagnostic. *)
Lemma parse_fallback_silent :
  @py_int ascii_python (drop 1 (u "AB")) = Raise ValueError
  ∧ ∃ e, @run ascii_python [Ajout (u "AB,AB,AB"); Colis (u "AB")]
         = Ok (tt, e, [ColisCree 1])
         ∧ liste_colis e = [[Article (u "AB") 0]].
Proof. vm_compute. split; [done|]. by eexists. Qed.

(** ** The theorems at concrete inputs *)

Lemma alert_log_invariant_witness :
  length (log_alertes entrepot_log_plein) = 3
  ∧ ∃ e' o, enregistrer_alerte (u "ZZ") entrepot_log_plein = Ok (tt, e', o)
            ∧ log_alertes e' = log_alertes entrepot_log_plein.
Proof.
  split; [reflexivity|].
  destruct (@alert_log_invariant ascii_python) as (_ & _ & _ & Henr).
  destruct (Henr (u "ZZ") entrepot_log_plein) as (e' & o & Hrun & _ & _ & Hfull).
  exists e', o. split; [exact Hrun|]. exact (proj1 (Hfull eq_refl)).
Defined.

Lemma resolution_check_witness :
  u "C1" ∈ log_alertes entrepot_c1
  ∧ seuil_min ≤ quantite entrepot_c1 (u "C1")
  ∧ ∃ e' o, verifier_et_nettoyer_alerte (u "C1") entrepot_c1 = Ok (tt, e', o)
            ∧ o = [Resolu (u "C1") (quantite entrepot_c1 (u "C1"))].
Proof.
  assert (u "C1" ∈ log_alertes entrepot_c1) as Hin by apply list_elem_of_here.
  assert (seuil_min ≤ quantite entrepot_c1 (u "C1")) as Hq by (vm_compute; lia).
  split; [exact Hin|]. split; [exact Hq|].
  destruct (@resolution_check ascii_python) as (Hverif & _ & _ & _).
  destruct (Hverif (u "C1") entrepot_c1) as (e' & o & Hrun & _ & _ & Hres & _).
  exists e', o. split; [exact Hrun|]. exact (proj1 (proj2 (Hres Hin Hq))).
Defined.

Lemma pack_alert_check_witness :
  u "9X" ≠ []
  ∧ ∃ c1 e1 o1 e2 o2,
      @prelever ascii_python [] (u "9X") entrepot_vide = Ok (c1, e1, o1)
      ∧ enregistrer_alerte (u "9X") e1 = Ok (tt, e2, o2)
      ∧ @traiter_commande ascii_python [] (u "9X") entrepot_vide
        = Ok (c1, e2, o1 ++ o2).
Proof.
  assert (u "9X" ≠ []) as Hne by discriminate.
  split; [exact Hne|].
  destruct (@pack_alert_check ascii_python) as [_ Hcheck].
  destruct (Hcheck [] (u "9X") entrepot_vide Hne)
    as (c1 & e1 & o1 & e2 & o2 & Hpre & Halert & Htr & _).
  exists c1, e1, o1, e2, o2. split; [exact Hpre|]. split; [exact Halert|exact Htr].
Defined.

Lemma pack_sorted_witness :
  ∃ o, @preparer_colis ascii_python (u "A3") entrepot_a3
       = Ok (tt,
             mkEntrepot {[ u "A3" := [] ]} [u "A3"] [[Article (u "A3") 3]],
             o).
Proof.
  destruct (proj1 pack_sorted ascii_python (u "A3") entrepot_a3)
    as (contenu & e1 & o1 & Hloop & _ & _ & _ & _ & _ & Harch).
  vm_compute in Hloop. injection Hloop as <- <- <-.
  apply Harch. discriminate.
Defined.

Lemma pack_archive_witness :
  ∃ e' o, @preparer_colis ascii_python (u "ZZ,,YY") entrepot_vide = Ok (tt, e', o)
          ∧ liste_colis e' = []
          ∧ filter est_rupture o = [Rupture (u "ZZ"); Rupture (u "YY")].
Proof.
  destruct (@pack_archive ascii_python (u "ZZ,,YY") entrepot_vide)
    as (contenu & e1 & o1 & e' & o & _ & Hrun & _ & _ & _ & _ & Hnone).
  exists e', o. split; [exact Hrun|].
  assert (∀ p, p ∈ @nettoyer ascii_python (u "ZZ,,YY") →
               p = [] ∨ quantite entrepot_vide p = 0) as Hl.
  { intros p _. right. reflexivity. }
  exact (proj2 (Hnone Hl)).
Defined.

Lemma volume_of_token_witness :
  forallb chiffre (u "3") = true
  ∧ u "3" ≠ []
  ∧ @exceeds_limit ascii_python (length (u "3")) = false
  ∧ @volume_de ascii_python (u "A3") = Ok (decimal (u "3"))
  ∧ (0 ≤ decimal (u "3"))%Z.
Proof.
  assert (forallb chiffre (u "3") = true) as Hc by reflexivity.
  assert (u "3" ≠ []) as Hne by discriminate.
  assert (@exceeds_limit ascii_python (length (u "3")) = false) as Hl
    by reflexivity.
  split; [exact Hc|]. split; [exact Hne|]. split; [exact Hl|].
  destruct (proj1 volume_of_token ascii_python) as (_ & Hdigits & _).
  exact (Hdigits 65%N (u "3") Hc Hne Hl).
Defined.

Lemma add_batch_quantities_witness :
  @valide ascii_python (u "A1") = true
  ∧ ∃ e' o, @ajouter_produit ascii_python (u "A1") entrepot_vide = Ok (tt, e', o)
            ∧ quantite e' (u "A1") = S (quantite entrepot_vide (u "A1")).
Proof.
  assert (@valide ascii_python (u "A1") = true) as Hv by reflexivity.
  split; [exact Hv|].
  destruct (proj1 add_batch_quantities ascii_python) as (_ & Hadd & _).
  destruct (Hadd (u "A1") entrepot_vide Hv) as (e' & o & Hrun & _ & Hq & _).
  exists e', o. split; [exact Hrun|exact Hq].
Defined.

Lemma no_exception_witness :
  u "ZZ" ≠ []
  ∧ quantite entrepot_vide (u "ZZ") = 0
  ∧ ∃ e' o, @traiter_commande ascii_python [] (u "ZZ") entrepot_vide
            = Ok ([], e', Rupture (u "ZZ") :: o).
Proof.
  assert (u "ZZ" ≠ []) as Hne by discriminate.
  assert (quantite entrepot_vide (u "ZZ") = 0) as Hq by reflexivity.
  split; [exact Hne|]. split; [exact Hq|].
  destruct (@no_exception ascii_python entrepot_vide)
    as (_ & _ & _ & _ & _ & _ & _ & _ & Hrupture & _).
  exact (Hrupture [] (u "ZZ") Hne Hq).
Defined.

(** * Lemmas for the further properties *)

Lemma alerter_rupture_de k p q l : filter (est_rupture_de k) (alerter p q l).2 = [].
Proof.
  unfold alerter. destruct (seuil_min <=? q); [done|].
  case_bool_decide; [done|]. by destruct (length l <? 3).
Qed.

Section quantites.
Context `{Python}.

Lemma boucle_commande_quantites l c e :
  ∃ extra e1 o1,
    for_fold l c traiter_commande e = Ok (c ++ extra, e1, o1)
    ∧ ∀ k, let n := length (filter (λ t, t = k ∧ t ≠ []) l) in
        quantite e1 k = quantite e k - n
        ∧ length (filter (λ a, art_id a = k) extra) = quantite e k `min` n
        ∧ length (filter (est_rupture_de k) o1) = n - quantite e k.
Proof.
  revert c e. induction l as [|p l IH]; intros c e.
  { exists [], e, []. rewrite app_nil_r. split; [done|]. intros k. simpl.
    split_and!; lia. }
  pose proof (traiter_commande_run c p e) as Hp.
  case_bool_decide as Hblank.
  - destruct (IH c e) as (extra & e1 & o1 & Hl & Hk).
    exists extra, e1, o1. rewrite (for_fold_cons _ _ _ _ _ _ _ _ Hp), Hl.
    split; [done|]. intros k.
    rewrite filter_cons_False by (intros [_ ?]; done). apply Hk.
  - destruct (file e p) as [|x q] eqn:Hf.
    + destruct (IH c (mkEntrepot (<[p := []]> (stock e))
                        (alerter p 0 (log_alertes e)).1 (liste_colis e)))
        as (extra & e1 & o1 & Hl & Hk).
      exists extra, e1, (Rupture p :: (alerter p 0 (log_alertes e)).2 ++ o1).
      rewrite (for_fold_cons _ _ _ _ _ _ _ _ Hp), Hl. split; [done|].
      intros k. specialize (Hk k). simpl in Hk.
      rewrite quantite_insert in Hk.
      destruct (decide (p = k)) as [->|Hpk].
      * rewrite (filter_cons_True (λ t, t = k ∧ t ≠ [])) by done.
        rewrite (filter_cons_True (est_rupture_de k))
          by (simpl; by apply bool_decide_pack).
        rewrite filter_app, alerter_rupture_de.
        unfold quantite in *. rewrite Hf. simpl. simpl in Hk. lia.
      * rewrite (filter_cons_False (λ t, t = k ∧ t ≠ [])) by (by intros [??]).
        rewrite (filter_cons_False (est_rupture_de k))
          by (simpl; by intros ?%bool_decide_unpack).
        rewrite filter_app, alerter_rupture_de. exact Hk.
    + destruct (IH (c ++ [Article p (volume p)])
                  (mkEntrepot (<[p := q]> (stock e))
                     (alerter p (length q) (log_alertes e)).1 (liste_colis e)))
        as (extra & e1 & o1 & Hl & Hk).
      exists (Article p (volume p) :: extra), e1,
        ((alerter p (length q) (log_alertes e)).2 ++ o1).
      rewrite (for_fold_cons _ _ _ _ _ _ _ _ Hp), Hl.
      split; [by rewrite <- app_assoc|].
      intros k. specialize (Hk k). simpl in Hk.
      rewrite quantite_insert in Hk. rewrite filter_app, alerter_rupture_de.
      destruct (decide (p = k)) as [->|Hpk].
      * rewrite (filter_cons_True (λ t, t = k ∧ t ≠ [])) by done.
        rewrite (filter_cons_True (λ a, art_id a = k)) by done.
        unfold quantite in *. rewrite Hf. simpl. simpl in Hk. lia.
      * rewrite (filter_cons_False (λ t, t = k ∧ t ≠ [])) by (by intros [??]).
        rewrite (filter_cons_False (λ a, art_id a = k)) by done. exact Hk.
Qed.
End quantites.

Lemma archives_app e c k :
  archives (mkEntrepot (stock e) (log_alertes e) (liste_colis e ++ [c])) k
  = archives e k + length (filter (λ a, art_id a = k) c).
Proof.
  unfold archives. simpl.
  by rewrite concat_app, filter_app, length_app, concat_cons, app_nil_r.
Qed.

Section conservation.
Context `{Python}.

Lemma executer_conserve c e :
  ∃ e' o,
    executer c e = Ok (tt, e', o)
    ∧ ∀ k, quantite e' k + archives e' k
           = quantite e k + archives e k + ajouts [c] k.
Proof.
  destruct c; simpl.
  - destruct (ajouter_lot_step (nettoyer produits) e)
      as (e' & o & Hrun & Harch & Hq & _).
    exists e', o. split; [done|]. intros k. rewrite Hq.
    unfold archives, acceptes. rewrite Harch. lia.
  - destruct (boucle_commande_spec (nettoyer liste) [] e)
      as (c & e1 & o1 & Hloop & Harch & Hq & _).
    simpl in Hloop. rewrite (preparer_colis_run _ _ _ _ _ Hloop). simpl.
    case_bool_decide as Hnil; eexists _, _; (split; [done|]); intros k;
      pose proof (Hq k) as Hk.
    + apply sort_by_nil in Hnil. subst c. simpl in Hk.
      unfold archives. rewrite Harch. lia.
    + assert (length (filter (λ a, art_id a = k) (sort_by vol_desc c))
              = length (filter (λ a, art_id a = k) c)) as Hperm
        by (by rewrite sort_by_perm).
      rewrite archives_app, Hperm.
      change (quantite (mkEntrepot (stock e1) (log_alertes e1)
                          (liste_colis e1 ++ [sort_by vol_desc c])) k)
        with (quantite e1 k).
      unfold archives. rewrite Harch. lia.
  - rewrite afficher_inventaire_run. eexists _, _. split; [done|]. intros; lia.
  - rewrite afficher_colis_run. eexists _, _. split; [done|]. intros; lia.
  - run. eexists _, _. split; [done|]. intros; lia.
  - run. eexists _, _. split; [done|]. intros; lia.
Qed.

Lemma commandes_conserve cs e :
  ∃ e' o,
    for_each cs executer e = Ok (tt, e', o)
    ∧ ∀ k, quantite e' k + archives e' k
           = quantite e k + archives e k + ajouts cs k.
Proof.
  revert e. induction cs as [|c cs IH]; intros e.
  { exists e, []. split; [done|]. intros k. simpl. lia. }
  destruct (executer_conserve c e) as (e1 & o1 & Hc & H1).
  destruct (IH e1) as (e2 & o2 & Hcs & H2).
  exists e2, (o1 ++ o2). rewrite (for_each_cons _ _ _ _ _ _ Hc), Hcs.
  split; [done|]. intros k. rewrite H2, H1. destruct c; simpl; lia.
Qed.

End conservation.

Section proprete.
Context `{Python}.

Lemma file_propre e k :
  stock_propre e → Forall (λ x, x = k) (file e k) ∧ (file e k ≠ [] → valide k = true ∧ k ≠ []).
Proof.
  intros [Hst _]. unfold file. destruct (stock e !! k) as [q|] eqn:Hk; simpl.
  - destruct (Hst k q Hk) as (? & ? & ?). split; [done|]. intros ?. by split; auto.
  - split; [constructor|done].
Qed.

Lemma valide_non_vide p : valide p = true → p ≠ [].
Proof. by intros Hv ->. Qed.

Lemma stock_propre_insert e p q l :
  stock_propre e → p ≠ [] → Forall (λ x, x = p) q → (q ≠ [] → valide p = true) →
  ([] ∉ l) →
  stock_propre (mkEntrepot (<[p := q]> (stock e)) l (liste_colis e)).
Proof.
  intros [Hst Hlog] Hp Hq Hv Hl. split; [|done]. simpl. intros k q' Hk.
  destruct (decide (p = k)) as [->|Hpk].
  - rewrite lookup_insert_eq in Hk. by injection Hk as <-.
  - rewrite lookup_insert_ne in Hk by done. by apply Hst.
Qed.

Lemma ajouter_produit_propre p e :
  stock_propre e →
  ∃ e' o, ajouter_produit p e = Ok (tt, e', o)
          ∧ stock_propre e' ∧ liste_colis e' = liste_colis e.
Proof.
  intros He. rewrite ajouter_produit_run. destruct (valide p) eqn:Hv;
    [|by eexists _, _]. eexists _, _. split; [done|]. split; [|done].
  destruct (file_propre e p He) as [Hf _].
  apply stock_propre_insert; [done|by apply valide_non_vide| |done|].
  - apply Forall_app. split; [done|]. by constructor.
  - intros Hin. destruct He as [_ Hlog]. apply Hlog.
    eapply elem_of_sublist; [done|apply resoudre_sublist].
Qed.

Lemma traiter_commande_propre c p e :
  stock_propre e → Forall article_propre c →
  ∃ c' e' o, traiter_commande c p e = Ok (c', e', o)
             ∧ stock_propre e' ∧ Forall article_propre c'
             ∧ liste_colis e' = liste_colis e.
Proof.
  intros He Hc. rewrite traiter_commande_run.
  case_bool_decide as Hp; [by eexists _, _, _|].
  assert (∀ q, [] ∉ (alerter p q (log_alertes e)).1) as Hlog.
  { intros q [Hin|(Heq & _)]%alerter_elem_of; [by apply He|done]. }
  destruct (file_propre e p He) as [Hf Hv].
  destruct (file e p) as [|x q] eqn:Hfile; eexists _, _, _; (split; [done|]).
  - split_and!; [|done|done].
    apply stock_propre_insert; [done|done|constructor|done|apply Hlog].
  - destruct Hv as [Hv _]; [done|]. split_and!; [| |done].
    + apply stock_propre_insert; [done|done| |done|apply Hlog].
      by apply Forall_cons in Hf as [_ ?].
    + apply Forall_app. split; [done|]. constructor; [|done].
      split; [done|]. apply volume_de_run.
Qed.

Lemma ajouter_lot_propre s e :
  stock_propre e ∧ archive_propre e →
  ∃ e' o, ajouter_lot s e = Ok (tt, e', o) ∧ stock_propre e' ∧ archive_propre e'.
Proof.
  intros [He Ha].
  destruct (for_each_ind
              (λ e', stock_propre e' ∧ liste_colis e' = liste_colis e)
              ajouter_produit (nettoyer s)) with (e := e)
    as (e' & o & Hrun & He' & Harch); [|done|].
  { intros x e0 [He0 Ha0].
    destruct (ajouter_produit_propre x e0 He0) as (e1 & o1 & ? & ? & ?).
    exists e1, o1. split_and!; [done|done|congruence]. }
  exists e', o. split_and!; [done|done|]. unfold archive_propre.
  by rewrite Harch.
Qed.

Lemma executer_propre c e :
  stock_propre e ∧ archive_propre e →
  ∃ e' o, executer c e = Ok (tt, e', o) ∧ stock_propre e' ∧ archive_propre e'.
Proof.
  intros [He Ha]. destruct c; simpl.
  - by apply ajouter_lot_propre.
  - destruct (for_fold_ind
                (λ c' e', stock_propre e' ∧ Forall article_propre c'
                          ∧ liste_colis e' = liste_colis e)
                traiter_commande (nettoyer liste)) with (b := @nil article) (e := e)
      as (c & e1 & o1 & Hloop & He1 & Hc & Harch); [|done|].
    { intros b x e0 (He0 & Hb & Ha0).
      destruct (traiter_commande_propre b x e0 He0 Hb)
        as (b1 & e1 & o1 & ? & ? & ? & ?).
      exists b1, e1, o1. split_and!; [done|done|done|congruence]. }
    rewrite (preparer_colis_run _ _ _ _ _ Hloop). simpl.
    case_bool_decide as Hnil; eexists _, _; (split; [done|]).
    + split; [done|]. unfold archive_propre. by rewrite Harch.
    + split; [by destruct He1|]. unfold archive_propre. simpl. rewrite Harch.
      apply Forall_app. split; [done|]. constructor; [|done].
      split_and!; [done|apply sort_vol_sorted|]. by rewrite sort_by_perm.
  - rewrite afficher_inventaire_run. by eexists _, _.
  - rewrite afficher_colis_run. by eexists _, _.
  - run. by eexists _, _.
  - run. by eexists _, _.
Qed.

Lemma run_propre cs :
  ∃ e o, run cs = Ok (tt, e, o) ∧ stock_propre e ∧ archive_propre e.
Proof.
  unfold run, session, init, initialiser_stock_defaut.
  generalize (u "A3, A3, B5, B5, C1, C1, A2, A2"). intros s0.
  assert (stock_propre entrepot_vide ∧ archive_propre entrepot_vide) as H0.
  { split; [|constructor]. split; [|by intros ?%elem_of_nil].
    intros k q Hk. simpl in Hk. by rewrite lookup_empty in Hk. }
  destruct (ajouter_lot_propre s0 entrepot_vide H0) as (e0 & o0 & Hinit & He0).
  destruct (for_each_ind (λ e, stock_propre e ∧ archive_propre e) executer cs
              executer_propre e0 He0) as (e & o & Hcs & He).
  exists e, (o0 ++ o).
  rewrite (bind_ok _ _ _ _ _ _ Hinit), Hcs. done.
Qed.
End proprete.

Lemma alerter_app p q l :
  ∃ added, (alerter p q l).1 = l ++ added
           ∧ (added = [] ∨ added = [p] ∧ q < seuil_min ∧ p ∉ l).
Proof.
  unfold alerter. destruct (seuil_min <=? q) eqn:Hq.
  { exists []. rewrite app_nil_r. split; [done|by left]. }
  apply Nat.leb_gt in Hq. case_bool_decide as Hin.
  { exists []. rewrite app_nil_r. split; [done|by left]. }
  destruct (length l <? 3).
  - exists [p]. split; [done|]. by right.
  - exists []. rewrite app_nil_r. split; [done|by left].
Qed.

Section monotonie.
Context `{Python}.

Lemma boucle_commande_log l c e :
  ∃ c' e1 o1 nv,
    for_fold l c traiter_commande e = Ok (c', e1, o1)
    ∧ log_alertes e1 = log_alertes e ++ nv
    ∧ Forall (λ p, p ∈ l ∧ p ≠ [] ∧ (p ∉ log_alertes e)
                   ∧ quantite e1 p < seuil_min) nv
    ∧ (∀ k, quantite e1 k ≤ quantite e k)
    ∧ (∀ p, p ∈ l → p ≠ [] → is_Some (stock e1 !! p))
    ∧ dom (stock e) ⊆ dom (stock e1).
Proof.
  revert c e. induction l as [|p l IH]; intros c e.
  { exists c, e, [], []. rewrite app_nil_r. split_and!; try done.
    by intros p ?%elem_of_nil. }
  pose proof (traiter_commande_run c p e) as Hp.
  case_bool_decide as Hblank.
  { destruct (IH c e) as (c' & e1 & o1 & nv & Hl & Hlog & Hnv & Hq & Hk & Hd).
    exists c', e1, o1, nv. rewrite (for_fold_cons _ _ _ _ _ _ _ _ Hp), Hl.
    split_and!; try done.
    - eapply Forall_impl; [done|]. intros a (? & ? & ? & ?).
      split_and!; try done. by apply elem_of_cons; right.
    - intros a [->|?]%elem_of_cons ?; [done|by apply Hk]. }
  set (q := tail (file e p)).
  set (e2 := mkEntrepot (<[p := q]> (stock e))
               (alerter p (length q) (log_alertes e)).1 (liste_colis e)).
  assert (∃ c2 o2, traiter_commande c p e = Ok (c2, e2, o2)) as (c2 & o2 & Hp2).
  { rewrite Hp. unfold e2, q. destruct (file e p); by eexists _, _. }
  destruct (IH c2 e2) as (c' & e1 & o1 & nv & Hl & Hlog & Hnv & Hq & Hk & Hd).
  destruct (alerter_app p (length q) (log_alertes e)) as (added & Hadd & Hcase).
  exists c', e1, (o2 ++ o1), (added ++ nv).
  rewrite (for_fold_cons _ _ _ _ _ _ _ _ Hp2), Hl.
  assert (∀ k, quantite e2 k ≤ quantite e k) as Hq2.
  { intros k. unfold e2. rewrite quantite_insert. case_decide as Hpk; [|done].
    subst k. unfold q, quantite. destruct (file e p); simpl; lia. }
  split_and!; try done.
  - rewrite Hlog. simpl. by rewrite Hadd, app_assoc.
  - apply Forall_app. split.
    + destruct Hcase as [->|(-> & Hlow & Hin)]; [constructor|].
      constructor; [|constructor]. split_and!; try done.
      * apply elem_of_cons; by left.
      * specialize (Hq p). unfold e2 in Hq.
        rewrite quantite_insert, decide_True in Hq by done. lia.
    + eapply Forall_impl; [done|]. intros a (? & ? & Hn & ?).
      split_and!; try done.
      * by apply elem_of_cons; right.
      * intros Hin. apply Hn. simpl. rewrite Hadd. apply elem_of_app. by left.
  - intros k. specialize (Hq k). specialize (Hq2 k). lia.
  - intros a [->|Ha]%elem_of_cons Hne; [|by apply Hk].
    apply elem_of_dom. apply Hd. simpl. rewrite dom_insert_L.
    apply elem_of_union_l. by apply elem_of_singleton.
  - etrans; [|exact Hd]. simpl. rewrite dom_insert_L. apply union_subseteq_r.
Qed.
End monotonie.

(** ** The order of the inventory display *)

Lemma str_le_total s t : str_le s t = false → str_le t s = true.
Proof.
  revert t. induction s as [|c s IH]; intros [|d t]; simpl; try done.
  intros [Hlt Hrest]%orb_false_elim. apply N.ltb_ge in Hlt.
  destruct (N.eqb_spec c d) as [->|Hne].
  - simpl in Hrest. rewrite N.eqb_refl, (IH _ Hrest). by rewrite orb_true_r.
  - replace (d <? c)%N with true by (symmetry; apply N.ltb_lt; lia). done.
Qed.

Lemma str_le_trans s t v :
  str_le s t = true → str_le t v = true → str_le s v = true.
Proof.
  revert t v. induction s as [|c s IH]; intros [|d t] [|f v]; simpl; try done.
  intros [Hcd|[Hcd Hst]%andb_prop]%orb_prop [Hdf|[Hdf Htv]%andb_prop]%orb_prop.
  - apply N.ltb_lt in Hcd, Hdf.
    replace (c <? f)%N with true by (symmetry; apply N.ltb_lt; lia). done.
  - apply N.ltb_lt in Hcd. apply N.eqb_eq in Hdf. subst f.
    replace (c <? d)%N with true by (symmetry; by apply N.ltb_lt). done.
  - apply N.eqb_eq in Hcd. subst d. by rewrite Hdf.
  - apply N.eqb_eq in Hcd, Hdf. subst d f.
    rewrite N.eqb_refl, (IH _ _ Hst Htv). by rewrite orb_true_r.
Qed.

Lemma insert_cle_sorted x l :
  StronglySorted (λ a b, cle_le a b = true) l →
  StronglySorted (λ a b, cle_le a b = true) (insert_by cle_le x l).
Proof.
  induction 1 as [|y l Hl IH Hy]; simpl.
  - repeat constructor.
  - destruct (cle_le x y) eqn:Hxy.
    + constructor; [by constructor|]. constructor; [done|].
      eapply Forall_impl; [done|]. intros z Hz. unfold cle_le in *.
      by eapply str_le_trans.
    + constructor; [done|]. rewrite insert_by_perm. constructor; [|done].
      unfold cle_le in *. by apply str_le_total.
Qed.

Lemma sort_cle_sorted l :
  StronglySorted (λ a b, cle_le a b = true) (sort_by cle_le l).
Proof.
  induction l as [|x l IH]; [constructor|]. by apply insert_cle_sorted.
Qed.

Lemma sorted_strict (l : list (str * list str)) :
  NoDup l.*1 → StronglySorted (λ a b, cle_le a b = true) l →
  StronglySorted code_avant l.
Proof.
  intros Hnd Hs. induction Hs as [|x l Hl IH Hx]; [constructor|].
  simpl in Hnd. apply NoDup_cons in Hnd as [Hx1 Hnd].
  constructor; [by apply IH|].
  apply Forall_forall. intros y Hy. split.
  - rewrite Forall_forall in Hx. by apply Hx.
  - intros Heq. apply Hx1. rewrite Heq. by apply list_elem_of_fmap_2.
Qed.

Lemma concat_singletons {A B} (f : A → B) l : concat ((λ x, [f x]) <$> l) = f <$> l.
Proof. induction l as [|x l IH]; [done|]. simpl. by f_equal. Qed.

Lemma lignes_colis_proj i (c : list article) :
  omap code_article (lignes_colis (i, c)) = art_id <$> reverse c
  ∧ omap numero_entete (lignes_colis (i, c)) = [i + 1]
  ∧ length (lignes_colis (i, c)) = length c + 2.
Proof.
  unfold lignes_colis. simpl. rewrite !omap_app, length_app, length_fmap.
  rewrite length_reverse. simpl. split_and!; [| |lia].
  - rewrite app_nil_r. generalize (reverse c) as r. intros r.
    induction r as [|a r IHr]; [done|]. simpl. by f_equal.
  - f_equal. rewrite app_nil_r. generalize (reverse c) as r. intros r.
    induction r as [|a r IHr]; [done|]. done.
Qed.

Lemma vue_colis n (l : list (list article)) :
  let o := concat (lignes_colis <$> imap (λ i c, (n + i, c)) l) in
  omap code_article o = concat ((λ c, art_id <$> reverse c) <$> l)
  ∧ omap numero_entete o = seq (S n) (length l)
  ∧ length o = length (concat l) + 2 * length l.
Proof.
  revert n. induction l as [|c l IH]; intros n; [done|].
  rewrite imap_cons.
  assert (imap ((λ i c0, (n + i, c0)) ∘ S) l = imap (λ i c0, (S n + i, c0)) l)
    as ->.
  { apply imap_ext. intros i x _. simpl. f_equal. lia. }
  destruct (IH (S n)) as (IH1 & IH2 & IH3). cbv zeta in *.
  rewrite !fmap_cons, !concat_cons, !omap_app, !length_app.
  destruct (lignes_colis_proj (n + 0) c) as (-> & -> & ->).
  rewrite IH1, IH2, IH3. split_and!; [done| |simpl; lia].
  simpl. do 2 f_equal. lia.
Qed.

(** ** Tokens *)

Lemma split_length s : length (split virgule s) = S (virgules s).
Proof.
  unfold virgules. induction s as [|c s IH]; [done|]. simpl.
  destruct (N.eqb_spec c virgule) as [->|Hc].
  - rewrite filter_cons_True by done. simpl. by rewrite IH.
  - rewrite filter_cons_False by done.
    destruct (split virgule s) as [|t ts]; [done|]. done.
Qed.

Lemma split_blanche (sp : N → bool) s :
  Forall (λ c, sp c = true ∨ c = virgule) s →
  Forall (Forall (λ c, sp c = true)) (split virgule s).
Proof.
  induction 1 as [|c s Hc Hs IH]; [by repeat constructor|]. simpl.
  destruct (N.eqb_spec c virgule) as [->|Hne].
  - by constructor.
  - destruct Hc as [Hc|Hc]; [|done].
    destruct (split virgule s) as [|t ts]; [by repeat constructor|].
    apply Forall_cons in IH as [Ht Hts]. constructor; [|done]. by constructor.
Qed.

Lemma lstrip_by_all (sp : N → bool) s :
  Forall (λ c, sp c = true) s → lstrip_by sp s = [].
Proof. induction 1 as [|c s Hc Hs IH]; [done|]. simpl. by rewrite Hc. Qed.

Section jetons.
Context `{Python}.

Lemma nettoyer_length s : length (nettoyer s) = S (virgules s).
Proof. unfold nettoyer. by rewrite length_fmap, split_length. Qed.

Lemma nettoyer_blanche s :
  blanche s → nettoyer s = replicate (S (virgules s)) [].
Proof.
  intros Hs. unfold nettoyer. rewrite <- split_length.
  pose proof (split_blanche isspace s Hs) as Hp.
  induction Hp as [|p ps Hp Hps IH]; [done|]. simpl. f_equal; [|done].
  unfold strip. by rewrite (lstrip_by_all _ _ Hp).
Qed.

Lemma ajouter_blancs n e :
  for_each (replicate n []) ajouter_produit e
  = Ok (tt, e, replicate n (FormatInvalide [])).
Proof.
  induction n as [|n IH]; [done|]. simpl replicate.
  assert (ajouter_produit [] e = Ok (tt, e, [FormatInvalide []])) as Hb
    by (by rewrite ajouter_produit_run).
  by rewrite (for_each_cons _ _ _ _ _ _ Hb), IH.
Qed.

Lemma traiter_blancs n c e :
  for_fold (replicate n []) c traiter_commande e = Ok (c, e, []).
Proof.
  induction n as [|n IH]; [done|]. simpl replicate.
  assert (traiter_commande c [] e = Ok (c, e, [])) as Hb
    by (by rewrite traiter_commande_run).
  by rewrite (for_fold_cons _ _ _ _ _ _ _ _ Hb), IH.
Qed.
End jetons.

(** ** Packing a unit and putting it back *)


Lemma alerter_idem p q l :
  (alerter p q (alerter p q l).1).1 = (alerter p q l).1
  ∧ ((alerter p q (alerter p q l).1).2 = []
     ∨ (alerter p q l).2 = [LogPlein p]
       ∧ (alerter p q (alerter p q l).1).2 = [LogPlein p]).
Proof.
  unfold alerter. destruct (seuil_min <=? q) eqn:Hq; [by split; [|left]|].
  destruct (bool_decide (p ∈ l)) eqn:Hin; simpl.
  { rewrite Hin. by split; [|left]. }
  destruct (length l <? 3) eqn:Hlen; simpl.
  - rewrite bool_decide_eq_true_2
      by (apply elem_of_app; right; apply list_elem_of_here).
    by split; [|left].
  - rewrite Hin, Hlen. by split; [|right].
Qed.

(** ** Interpreters that agree with ASCII *)

Lemma lstrip_by_ext (f g : N → bool) s :
  Forall (λ c, f c = g c) s → lstrip_by f s = lstrip_by g s.
Proof.
  induction 1 as [|c s Hc Hs IH]; [done|]. simpl. rewrite Hc, IH. done.
Qed.

Lemma lstrip_by_Forall (P : N → Prop) f s :
  Forall P s → Forall P (lstrip_by f s).
Proof.
  induction 1 as [|c s Hc Hs IH]; [done|]. simpl.
  destruct (f c); [done|by constructor].
Qed.

Lemma split_Forall (P : N → Prop) sep s :
  Forall P s → Forall (Forall P) (split sep s).
Proof.
  induction 1 as [|c s Hc Hs IH]; [by repeat constructor|]. simpl.
  destruct (c =? sep)%N; [by constructor|].
  destruct (split sep s) as [|t ts]; [by repeat constructor|].
  apply Forall_cons in IH as [Ht Hts]. constructor; [|done]. by constructor.
Qed.

Section tables.
Context (H : Python) (Hascii : tables_ascii H).

Lemma strip_ascii s :
  est_ascii s → @strip H s = @strip ascii_python s ∧ est_ascii (@strip H s).
Proof.
  intros Hs. unfold strip, rstrip_by.
  assert (∀ t, est_ascii t → Forall (λ c, @isspace H c = ascii_isspace c) t)
    as Hext.
  { intros t Ht. eapply Forall_impl; [done|]. intros c Hc. by apply Hascii. }
  assert (lstrip_by (@isspace H) s = lstrip_by ascii_isspace s) as Hl
    by (by apply lstrip_by_ext, Hext).
  assert (est_ascii (reverse (lstrip_by (@isspace H) s))) as Hr.
  { unfold est_ascii. rewrite Forall_reverse. by apply lstrip_by_Forall. }
  split.
  - simpl. rewrite <- Hl. f_equal. by apply lstrip_by_ext, Hext.
  - unfold est_ascii. rewrite Forall_reverse. by apply lstrip_by_Forall.
Qed.

Lemma upper_ascii s : est_ascii s → @upper H s = @upper ascii_python s.
Proof.
  unfold upper. induction 1 as [|c s Hc Hs IH]; [done|]. simpl.
  rewrite IH. f_equal. by apply Hascii.
Qed.

Lemma nettoyer_ascii s :
  est_ascii s → @nettoyer H s = @nettoyer ascii_python s.
Proof.
  intros Hs. unfold nettoyer.
  pose proof (split_Forall _ virgule s Hs) as Hp.
  induction Hp as [|p ps Hp Hps IH]; [done|]. rewrite !fmap_cons. f_equal; [|done].
  destruct (strip_ascii p Hp) as [Heq Hst]. rewrite upper_ascii by done.
  by rewrite Heq.
Qed.

Lemma ajouter_ascii l e :
  Forall (λ p, @valide H p = @valide ascii_python p) l →
  for_each l (@ajouter_produit H) e = for_each l (@ajouter_produit ascii_python) e.
Proof.
  intros Hl. revert e. induction Hl as [|p l Hp Hl IH]; intros e; [done|].
  simpl. unfold mbind, M_bind. rewrite !ajouter_produit_run, Hp.
  destruct (@valide ascii_python p); simpl; by rewrite IH.
Qed.

Lemma valide_ascii c p :
  (c < 128)%N → @valide H (c :: p) = @valide ascii_python (c :: p).
Proof. intros Hc. destruct p; [done|]. simpl. by apply Hascii. Qed.

Lemma init_ascii : @init H entrepot_vide = Ok (tt, entrepot_defaut, []).
Proof.
  unfold init, initialiser_stock_defaut, ajouter_lot.
  rewrite nettoyer_ascii
    by (unfold est_ascii, u; simpl; repeat (constructor; [done|]); constructor).
  rewrite ajouter_ascii.
  - by vm_compute.
  - change (@nettoyer ascii_python (u "A3, A3, B5, B5, C1, C1, A2, A2"))
      with [u "A3"; u "A3"; u "B5"; u "B5"; u "C1"; u "C1"; u "A2"; u "A2"].
    repeat (constructor; [by apply valide_ascii|]). constructor.
Qed.
End tables.

(** ** What a sequence of commands never undoes *)

Lemma for_each_ind_out {A} (P : Entrepot → Prop) (Q : sortie → Prop)
    (body : A → M unit) l :
  (∀ x e, P e → ∃ e' o, body x e = Ok (tt, e', o) ∧ P e' ∧ Forall Q o) →
  ∀ e, P e → ∃ e' o, for_each l body e = Ok (tt, e', o) ∧ P e' ∧ Forall Q o.
Proof.
  intros Hbody. induction l as [|x l IH]; intros e He; simpl.
  - by exists e, [].
  - destruct (Hbody x e He) as (e1 & o1 & Hx & He1 & Ho1).
    destruct (IH e1 He1) as (e2 & o2 & Hl & He2 & Ho2).
    exists e2, (o1 ++ o2). split_and!; [|done|by apply Forall_app].
    rewrite (bind_ok _ _ _ _ _ _ Hx). by rewrite Hl.
Qed.

Lemma for_fold_ind_out {A B} (P : B → Entrepot → Prop) (Q : sortie → Prop)
    (body : B → A → M B) l :
  (∀ b x e, P b e →
     ∃ b' e' o, body b x e = Ok (b', e', o) ∧ P b' e' ∧ Forall Q o) →
  ∀ b e, P b e →
    ∃ b' e' o, for_fold l b body e = Ok (b', e', o) ∧ P b' e' ∧ Forall Q o.
Proof.
  intros Hbody. induction l as [|x l IH]; intros b e He; simpl.
  - by exists b, e, [].
  - destruct (Hbody b x e He) as (b1 & e1 & o1 & Hx & He1 & Ho1).
    destruct (IH b1 e1 He1) as (b2 & e2 & o2 & Hl & He2 & Ho2).
    exists b2, e2, (o1 ++ o2). split_and!; [|done|by apply Forall_app].
    rewrite (bind_ok _ _ _ _ _ _ Hx). by rewrite Hl.
Qed.

Lemma elem_of_concat {A} (x : A) (ls : list (list A)) :
  x ∈ concat ls → ∃ l, l ∈ ls ∧ x ∈ l.
Proof.
  induction ls as [|l ls IH]; simpl; [by intros ?%elem_of_nil|].
  intros [Hx|Hx]%elem_of_app.
  - exists l. split; [apply list_elem_of_here|done].
  - destruct (IH Hx) as (l' & ? & ?). exists l'. split; [|done].
    by apply list_elem_of_further.
Qed.

Lemma dom_non_vide (s1 s2 : gmap str (list str)) :
  dom s1 ⊆ dom s2 → s1 ≠ ∅ → s2 ≠ ∅.
Proof.
  intros Hd Hne Hempty. apply Hne. apply dom_empty_inv_L.
  apply elem_of_equiv_empty_L. intros x Hx. apply Hd in Hx.
  rewrite Hempty, dom_empty_L in Hx. by apply not_elem_of_empty in Hx.
Qed.

Lemma resoudre_sans_vide p q l : Forall (λ x, x ≠ InventaireVide) (resoudre p q l).2.
Proof.
  unfold resoudre. case_bool_decide; [|constructor].
  destruct (seuil_min <=? q); by repeat constructor.
Qed.

Lemma alerter_sans_vide p q l : Forall (λ x, x ≠ InventaireVide) (alerter p q l).2.
Proof.
  unfold alerter. destruct (seuil_min <=? q); [constructor|].
  case_bool_decide; [constructor|].
  destruct (length l <? 3); by repeat constructor.
Qed.

Section persistance.
Context `{Python}.

Lemma ajouter_lot_monotone s e :
  ∃ e' o,
    ajouter_lot s e = Ok (tt, e', o)
    ∧ (dom (stock e) ⊆ dom (stock e') ∧ liste_colis e' = liste_colis e)
    ∧ Forall (λ x, x ≠ InventaireVide) o.
Proof.
  apply (for_each_ind_out
           (λ e', dom (stock e) ⊆ dom (stock e')
                  ∧ liste_colis e' = liste_colis e)); [|done].
  intros p e0 [Hd Ha]. rewrite ajouter_produit_run.
  destruct (valide p); eexists _, _; (split; [done|]); split.
  - split; [|done]. simpl. rewrite dom_insert_L. etrans; [done|].
    apply union_subseteq_r.
  - apply resoudre_sans_vide.
  - done.
  - by repeat constructor.
Qed.

Lemma preparer_colis_monotone s e :
  ∃ e' o,
    preparer_colis s e = Ok (tt, e', o)
    ∧ dom (stock e) ⊆ dom (stock e')
    ∧ (liste_colis e' = liste_colis e
       ∨ ∃ c, c ≠ [] ∧ liste_colis e' = liste_colis e ++ [c])
    ∧ Forall (λ x, x ≠ InventaireVide) o.
Proof.
  destruct (for_fold_ind_out
              (λ _ e', dom (stock e) ⊆ dom (stock e')
                       ∧ liste_colis e' = liste_colis e)
              (λ x, x ≠ InventaireVide)
              traiter_commande (nettoyer s)) with (b := @nil article) (e := e)
    as (c & e1 & o1 & Hloop & [Hd Ha] & Ho); [|done|].
  { intros b p e0 [Hd Ha]. rewrite traiter_commande_run.
    case_bool_decide; [by eexists _, _, _|].
    destruct (file e0 p); eexists _, _, _; (split; [done|]); simpl;
      (split; [split; [|done]|]).
    - rewrite dom_insert_L. etrans; [done|]. apply union_subseteq_r.
    - constructor; [done|]. apply alerter_sans_vide.
    - rewrite dom_insert_L. etrans; [done|]. apply union_subseteq_r.
    - apply alerter_sans_vide. }
  rewrite (preparer_colis_run _ _ _ _ _ Hloop). simpl.
  case_bool_decide as Hnil; eexists _, _; (split; [done|]).
  - split_and!; [done|by left|done].
  - split_and!; [done| |].
    + right. exists (sort_by vol_desc c). simpl. by rewrite Ha.
    + apply Forall_app. split; [done|]. by repeat constructor.
Qed.

Lemma executer_monotone c e :
  ∃ e' o,
    executer c e = Ok (tt, e', o)
    ∧ dom (stock e) ⊆ dom (stock e')
    ∧ liste_colis e `prefix_of` liste_colis e'
    ∧ length (liste_colis e')
      ≤ length (liste_colis e) + length (filter est_colis [c])
    ∧ (stock e ≠ ∅ → InventaireVide ∉ o).
Proof.
  destruct c.
  - destruct (ajouter_lot_monotone produits e) as (e' & o & Hrun & [Hd Ha] & Ho).
    exists e', o. simpl. rewrite Ha. split_and!; [done|done|done|simpl; lia|].
    intros _ Hin. rewrite Forall_forall in Ho. by apply (Ho _ Hin).
  - destruct (preparer_colis_monotone liste e)
      as (e' & o & Hrun & Hd & Ha & Ho).
    exists e', o. simpl. split_and!; [done|done| | |].
    + destruct Ha as [->|(c & _ & ->)]; [done|by apply prefix_app_r].
    + destruct Ha as [->|(c & _ & ->)]; [lia|]. rewrite length_app. simpl. lia.
    + intros _ Hin. rewrite Forall_forall in Ho. by apply (Ho _ Hin).
  - simpl. rewrite afficher_inventaire_run. eexists _, _.
    split_and!; [done|done|done|simpl; lia|].
    intros Hne. rewrite bool_decide_eq_false_2 by done. simpl.
    rewrite concat_singletons.
    intros [|Hin]%elem_of_cons; [done|].
    apply list_elem_of_fmap in Hin as (x & Hx & _). done.
  - simpl. rewrite afficher_colis_run. eexists _, _.
    split_and!; [done|done|done|simpl; lia|].
    intros _. case_bool_decide.
    + by intros [|?%elem_of_nil]%elem_of_cons.
    + intros (l & Hl & Hin)%elem_of_concat.
      apply list_elem_of_fmap in Hl as ([i c] & -> & _).
      unfold lignes_colis in Hin. simpl in Hin.
      apply elem_of_cons in Hin as [|Hin]; [done|].
      apply elem_of_app in Hin as [Hin|Hin].
      * by apply list_elem_of_fmap in Hin as (? & ? & _).
      * by apply list_elem_of_singleton in Hin.
  - simpl. run. eexists _, _. split_and!; [done|done|done|simpl; lia|].
    intros _. by intros [|?%elem_of_nil]%elem_of_cons.
  - simpl. run. eexists _, _. split_and!; [done|done|done|simpl; lia|].
    intros _. by intros [|?%elem_of_nil]%elem_of_cons.
Qed.

Lemma commandes_monotone cs e :
  ∃ e' o,
    for_each cs executer e = Ok (tt, e', o)
    ∧ dom (stock e) ⊆ dom (stock e')
    ∧ liste_colis e `prefix_of` liste_colis e'
    ∧ length (liste_colis e')
      ≤ length (liste_colis e) + length (filter est_colis cs)
    ∧ (stock e ≠ ∅ → InventaireVide ∉ o).
Proof.
  revert e. induction cs as [|c cs IH]; intros e.
  { exists e, []. split_and!; [done|done|done|simpl; lia|].
    intros _. apply not_elem_of_nil. }
  destruct (executer_monotone c e) as (e1 & o1 & Hc & Hd1 & Hp1 & Hl1 & Ho1).
  destruct (IH e1) as (e2 & o2 & Hcs & Hd2 & Hp2 & Hl2 & Ho2).
  exists e2, (o1 ++ o2). rewrite (for_each_cons _ _ _ _ _ _ Hc), Hcs.
  split_and!; [done|by etrans|by etrans| |].
  - change (c :: cs) with ([c] ++ cs). rewrite filter_app, length_app. lia.
  - intros Hne. pose proof (dom_non_vide _ _ Hd1 Hne) as Hne1.
    intros [?|?]%elem_of_app; [by apply Ho1|by apply Ho2].
Qed.
End persistance.

(** ** The menu loop *)

Section menu.
Context `{Python}.

Lemma appel_executer c e suite e1 o1 i e2 o2 :
  executer c e = Ok (tt, e1, o1) → suite e1 = (i, e2, o2) →
  appel (executer c) e suite = (i, e2, (Affiche <$> o1) ++ o2).
Proof. intros Hc Hs. unfold appel. by rewrite Hc, Hs. Qed.

Lemma omap_affiche (o : list sortie) : omap sortie_de (Affiche <$> o) = o.
Proof. induction o as [|x o IH]; [done|]. simpl. by f_equal. Qed.

Lemma boucle_commandes n entrees e :
  length entrees ≤ n →
  ∃ e' o o',
    boucle entrees e
    = (if quitte entrees then Quitte else EOFError, e', o)
    ∧ for_each (commandes_saisies entrees) executer e = Ok (tt, e', o')
    ∧ omap sortie_de o = o'.
Proof.
  revert entrees e. induction n as [|n IH]; intros entrees e Hn.
  { destruct entrees; [|simpl in Hn; lia]. by eexists e, _, []. }
  destruct entrees as [|choix reste]; [by eexists e, _, []|].
  simpl in Hn.
  assert (∀ c rest,
            length rest ≤ n →
            ∃ e' o o',
              appel (executer c) e (boucle rest)
              = (if quitte rest then Quitte else EOFError, e', o)
              ∧ for_each (c :: commandes_saisies rest) executer e = Ok (tt, e', o')
              ∧ omap sortie_de o = o') as Hstep.
  { intros c rest Hrest.
    destruct (executer_monotone c e) as (e1 & o1 & Hc & _).
    destruct (IH rest e1 Hrest) as (e2 & o2 & o2' & Hb & Hf & Ho).
    exists e2, ((Affiche <$> o1) ++ o2), (o1 ++ o2').
    rewrite (appel_executer _ _ _ _ _ _ _ _ Hc Hb).
    rewrite (for_each_cons _ _ _ _ _ _ Hc), Hf.
    split_and!; [done|done|]. by rewrite omap_app, omap_affiche, Ho. }
  simpl. repeat case_decide.
  - destruct reste as [|s reste']; [by eexists e, _, []|].
    destruct (Hstep (Ajout s) reste') as (e' & o & o' & Hb & Hf & Ho);
      [simpl in Hn; lia|].
    simpl in Hb. rewrite Hb. by eexists e', _, o'.
  - destruct reste as [|s reste']; [by eexists e, _, []|].
    destruct (Hstep (Colis s) reste') as (e' & o & o' & Hb & Hf & Ho);
      [simpl in Hn; lia|].
    simpl in Hb. rewrite Hb. by eexists e', _, o'.
  - destruct (Hstep VoirStock reste) as (e' & o & o' & Hb & Hf & Ho); [lia|].
    simpl in Hb. rewrite Hb. by eexists e', _, o'.
  - destruct (Hstep VoirColis reste) as (e' & o & o' & Hb & Hf & Ho); [lia|].
    simpl in Hb. rewrite Hb. by eexists e', _, o'.
  - destruct (Hstep VoirAlertes reste) as (e' & o & o' & Hb & Hf & Ho); [lia|].
    simpl in Hb. rewrite Hb. by eexists e', _, o'.
  - by eexists e, _, [].
  - destruct (Hstep Autre reste) as (e' & o & o' & Hb & Hf & Ho); [lia|].
    simpl in Hb. rewrite Hb. by eexists e', _, o'.
Qed.
End menu.

(** * Further properties of the code *)

(** X1 — what a package takes. [preparer_colis] never fails and, for
    every code: the quantity left is the quantity before minus the number
    of non-blank tokens of the order equal to the code, and 0 when fewer
    are in stock; the archive gains the smaller of the quantity in stock
    and the number asked; the backorder notices of the code count the
    units asked beyond the stock. *)
Theorem pack_takes_min `{Python} (s : str) (e : Entrepot) :
  ∃ e' o,
    preparer_colis s e = Ok (tt, e', o)
    ∧ ∀ k, quantite e' k = quantite e k - demandes s k
           ∧ archives e' k = archives e k + quantite e k `min` demandes s k
           ∧ length (filter (est_rupture_de k) o) = demandes s k - quantite e k.
Proof.
  destruct (boucle_commande_quantites (nettoyer s) [] e)
    as (extra & e1 & o1 & Hloop & Hk).
  destruct (boucle_commande_total (nettoyer s) [] e)
    as (c' & e1' & o1' & Hloop' & Harch).
  rewrite Hloop in Hloop'. injection Hloop' as <- <- <-. simpl in Hloop.
  rewrite (preparer_colis_run _ _ _ _ _ Hloop). simpl.
  case_bool_decide as Hnil.
  - apply sort_by_nil in Hnil. subst extra. exists e1, o1. split; [done|].
    intros k. destruct (Hk k) as (Hq & Hx & Hr). split_and!; [done| |done].
    unfold archives. rewrite Harch. simpl in Hx. unfold demandes. lia.
  - eexists _, _. split; [done|]. intros k.
    destruct (Hk k) as (Hq & Hx & Hr). split_and!; [done| |].
    + rewrite archives_app. rewrite sort_by_perm, Hx.
      unfold archives. by rewrite Harch.
    + rewrite filter_app. simpl. rewrite length_app. simpl.
      unfold demandes. lia.
Qed.

(** X2 — no unit is lost or made up. In every state a session reaches,
    for every code, the units in stock plus the units in the archived
    packages are the units that the default stock and the additions of
    the session brought in. *)
Theorem units_conserved `{Python} (cs : list commande) :
  ∃ e o,
    run cs = Ok (tt, e, o)
    ∧ ∀ k, quantite e k + archives e k
           = acceptes (u "A3, A3, B5, B5, C1, C1, A2, A2") k + ajouts cs k.
Proof.
  unfold run, session, init, initialiser_stock_defaut.
  destruct (ajouter_lot_step (nettoyer (u "A3, A3, B5, B5, C1, C1, A2, A2"))
              entrepot_vide) as (e0 & o0 & Hinit & Harch & Hq & _).
  destruct (commandes_conserve cs e0) as (e & o & Hcs & Hk).
  exists e, (o0 ++ o). unfold ajouter_lot.
  rewrite (bind_ok _ _ _ _ _ _ Hinit), Hcs. split; [done|].
  intros k. rewrite Hk, Hq. unfold archives, acceptes. rewrite Harch.
  unfold quantite, file. simpl. rewrite lookup_empty. simpl. lia.
Qed.

(** X3 — the stock is well formed. In every state a session reaches,
    every queue holds only copies of its own key, the empty string is
    neither a key of the stock nor an entry of the log, and every code
    with a unit in stock passes the format check of [ajouter_lot]. *)
Theorem stock_well_formed `{Python} (cs : list commande) :
  ∃ e o, run cs = Ok (tt, e, o) ∧ stock_propre e.
Proof.
  destruct (run_propre cs) as (e & o & Hrun & He & _). by exists e, o.
Qed.

(** X4 — the archive is well formed. In every state a session reaches,
    every archived package is non-empty and sorted by decreasing volume,
    and each of its items is an accepted code with the volume [int]
    gives its suffix (0 on [ValueError]). *)
Theorem archive_well_formed `{Python} (cs : list commande) :
  ∃ e o, run cs = Ok (tt, e, o) ∧ archive_propre e.
Proof.
  destruct (run_propre cs) as (e & o & Hrun & _ & Ha). by exists e, o.
Qed.

(** X5 — what commands never undo. From any state, any sequence of menu
    commands returns normally, keeps every key of the stock (a code whose
    units are all sold stays, with an empty queue), keeps the archived
    packages as a prefix of the archive, and adds at most one package per
    pack command. *)
Theorem commands_never_undo `{Python} (cs : list commande) (e : Entrepot) :
  ∃ e' o,
    for_each cs executer e = Ok (tt, e', o)
    ∧ dom (stock e) ⊆ dom (stock e')
    ∧ liste_colis e `prefix_of` liste_colis e'
    ∧ length (liste_colis e')
      ≤ length (liste_colis e) + length (filter est_colis cs).
Proof.
  destruct (commandes_monotone cs e) as (e' & o & Hrun & Hd & Hp & Hl & _).
  by exists e', o.
Qed.

(** X6 — the log during a package. [preparer_colis] only appends to the
    alert log: the log before is a prefix of the log after, and each new
    entry is a non-blank token of the order that was not logged and whose
    quantity at the end is below the threshold. Every non-blank token of
    the order is a key of the stock afterwards, stocked or not. *)
Theorem pack_log_growth `{Python} (s : str) (e : Entrepot) :
  ∃ e' o nouveaux,
    preparer_colis s e = Ok (tt, e', o)
    ∧ log_alertes e' = log_alertes e ++ nouveaux
    ∧ Forall (λ p, p ∈ nettoyer s ∧ p ≠ [] ∧ (p ∉ log_alertes e)
                   ∧ quantite e' p < seuil_min) nouveaux
    ∧ Forall (λ p, p = [] ∨ is_Some (stock e' !! p)) (nettoyer s).
Proof.
  destruct (boucle_commande_log (nettoyer s) [] e)
    as (c & e1 & o1 & nv & Hloop & Hlog & Hnv & _ & Hk & _).
  rewrite (preparer_colis_run _ _ _ _ _ Hloop). simpl.
  assert (Forall (λ p, p = [] ∨ is_Some (stock e1 !! p)) (nettoyer s)) as Hkeys.
  { apply Forall_forall. intros p Hp.
    destruct (decide (p = [])) as [->|Hne]; [by left|]. right. by apply Hk. }
  case_bool_decide; eexists _, _, nv; (split; [done|]); done.
Qed.

(** X7 — the inventory display. [afficher_inventaire] leaves the state
    unchanged and prints the header, the empty-inventory line exactly
    when the stock has no key, then one line per key of the stock, each
    key once, in strictly increasing order of code points, with the
    length of its queue and the low mark when that length is below 2. *)
Theorem inventory_display (e : Entrepot) :
  ∃ items,
    afficher_inventaire e
    = Ok (tt, e,
          EnteteInventaire
          :: (if bool_decide (stock e = ∅) then [InventaireVide] else [])
          ++ (ligne_inventaire <$> items))
    ∧ (∀ k q, (k, q) ∈ items ↔ stock e !! k = Some q)
    ∧ NoDup items.*1
    ∧ StronglySorted code_avant items.
Proof.
  exists (sort_by cle_le (map_to_list (stock e))).
  rewrite afficher_inventaire_run, concat_singletons.
  split_and!; [done| | |].
  - intros k q. rewrite sort_by_perm. apply elem_of_map_to_list.
  - rewrite sort_by_perm. apply NoDup_fst_map_to_list.
  - apply sorted_strict; [|apply sort_cle_sorted].
    rewrite sort_by_perm. apply NoDup_fst_map_to_list.
Qed.

(** X8 — the default stock stays. On an interpreter whose character
    tables agree with ASCII on the ASCII characters, [Entrepot()] prints
    nothing and stocks two units each of A2, A3, B5 and C1 with an empty
    log and archive; in every state of a session these four codes are
    keys of the stock, so the stock is never empty and no session prints
    the empty-inventory line. *)
Theorem inventory_never_empty (H : Python) :
  tables_ascii H →
  @run H [] = Ok (tt, entrepot_defaut, [])
  ∧ ∀ cs, ∃ e o,
      @run H cs = Ok (tt, e, o)
      ∧ Forall (λ k, is_Some (stock e !! k)) [u "A2"; u "A3"; u "B5"; u "C1"]
      ∧ stock e ≠ ∅
      ∧ InventaireVide ∉ o.
Proof.
  intros Hascii. pose proof (init_ascii H Hascii) as Hinit.
  assert (stock entrepot_defaut ≠ ∅) as Hne.
  { intros Hempty.
    assert (stock entrepot_defaut !! u "A2" = None) as Hnone
      by (by rewrite Hempty, lookup_empty).
    by vm_compute in Hnone. }
  split.
  - unfold run, session. by rewrite (bind_ok _ _ _ _ _ _ Hinit).
  - intros cs.
    destruct (commandes_monotone cs entrepot_defaut)
      as (e & o & Hcs & Hd & _ & _ & Ho).
    exists e, o. unfold run, session.
    rewrite (bind_ok _ _ _ _ _ _ Hinit), Hcs. split_and!; [done| | |by apply Ho].
    + repeat (constructor;
              [apply elem_of_dom, Hd, elem_of_dom; vm_compute; by eexists|]).
      constructor.
    + by eapply dom_non_vide.
Qed.

(** X9 — the archive display. [afficher_colis] leaves the state
    unchanged. With an empty archive it prints the no-package line only.
    Otherwise it shows the packages in archive order, numbered from 1,
    the items of each package in reverse of their stored order, and
    prints one line per item plus two per package. *)
Theorem archive_display (e : Entrepot) :
  ∃ o,
    afficher_colis e = Ok (tt, e, o)
    ∧ (liste_colis e = [] → o = [AucunColis])
    ∧ (liste_colis e ≠ [] →
       omap code_article o
       = concat ((λ c, art_id <$> reverse c) <$> liste_colis e)
       ∧ omap numero_entete o = seq 1 (length (liste_colis e))
       ∧ length o = length (concat (liste_colis e)) + 2 * length (liste_colis e)).
Proof.
  rewrite afficher_colis_run. eexists. split; [done|].
  case_bool_decide as Hnil; split; try done.
  intros _. apply (vue_colis 0 (liste_colis e)).
Qed.

(** X10 — blank input. On a string made of white space and commas only
    (the empty string included), [ajouter_lot] leaves the state unchanged
    and prints one invalid-format diagnostic of the empty code per token,
    one more than there are commas; [preparer_colis] leaves the state
    unchanged and prints nothing. *)
Theorem blank_input `{Python} (s : str) (e : Entrepot) :
  blanche s →
  ajouter_lot s e = Ok (tt, e, replicate (S (virgules s)) (FormatInvalide []))
  ∧ preparer_colis s e = Ok (tt, e, []).
Proof.
  intros Hs. split.
  - unfold ajouter_lot. rewrite (nettoyer_blanche s Hs). apply ajouter_blancs.
  - pose proof (traiter_blancs (S (virgules s)) [] e) as Hloop.
    rewrite <- (nettoyer_blanche s Hs) in Hloop.
    by rewrite (preparer_colis_run _ _ _ _ _ Hloop).
Qed.


(** X12 — flagging twice. A second [enregistrer_alerte] on the same code
    right after the first leaves the state as the first left it; it
    prints nothing, except the log-full notice again when the first call
    printed it. *)
Theorem alert_idempotent (p : str) (e : Entrepot) :
  ∃ e1 o1 o2,
    enregistrer_alerte p e = Ok (tt, e1, o1)
    ∧ enregistrer_alerte p e1 = Ok (tt, e1, o2)
    ∧ (o2 = [] ∨ o1 = [LogPlein p] ∧ o2 = [LogPlein p]).
Proof.
  rewrite enregistrer_run. eexists _, _, _. split; [done|].
  rewrite enregistrer_run. cbv zeta. rewrite quantite_insert.
  rewrite decide_True by done. unfold file at 1 2. simpl.
  rewrite lookup_insert_eq, insert_insert_eq. simpl. fold (quantite e p).
  destruct (alerter_idem p (quantite e p) (log_alertes e)) as [-> Ho].
  split; [done|exact Ho].
Qed.

(** X13 — the menu loop. On any sequence of input lines [main] raises
    no exception of a method: it ends on choice 6 when the lines reach
    one, and otherwise on the [EOFError] of the [input] that finds no
    line. Its final state and the lines its methods printed are those of
    the session made of the commands that the lines amount to, and the
    final state satisfies the invariant of the alert log. A choice is
    recognised only when the line is exactly the digit. *)
Theorem main_session `{Python} (entrees : list str) :
  ∃ e o o',
    main entrees = (if quitte entrees then Quitte else EOFError, e, o)
    ∧ run (commandes_saisies entrees) = Ok (tt, e, o')
    ∧ omap sortie_de o = o'
    ∧ invariant e.
Proof.
  unfold main, run, session, init, initialiser_stock_defaut.
  generalize (u "A3, A3, B5, B5, C1, C1, A2, A2"). intros s0.
  destruct (ajouter_lot_invariant s0 entrepot_vide invariant_vide)
    as (e0 & o0 & Hinit & He0).
  destruct (for_each_ind invariant executer (commandes_saisies entrees)
              executer_invariant e0 He0) as (e1 & o1 & Hcs & He1).
  destruct (boucle_commandes (length entrees) entrees e0 (le_n _))
    as (e' & o & o2 & Hb & Hf & Ho).
  rewrite Hcs in Hf. injection Hf as <- <-.
  exists e1, ((Affiche <$> o0) ++ o), (o0 ++ o1).
  split_and!; [| | |done].
  - unfold appel. by rewrite Hinit, Hb.
  - rewrite (bind_ok _ _ _ _ _ _ Hinit). by rewrite Hcs.
  - by rewrite omap_app, omap_affiche, Ho.
Qed.

(** ** The further properties at concrete inputs *)

Lemma archive_display_witness :
  ∃ o, afficher_colis
         (mkEntrepot ∅ [] [[Article (u "B5") 5; Article (u "A1") 1]])
       = Ok (tt, mkEntrepot ∅ [] [[Article (u "B5") 5; Article (u "A1") 1]], o)
       ∧ omap code_article o = [u "A1"; u "B5"]
       ∧ omap numero_entete o = [1].
Proof.
  destruct (archive_display
              (mkEntrepot ∅ [] [[Article (u "B5") 5; Article (u "A1") 1]]))
    as (o & Hrun & _ & Hshow).
  exists o. split; [exact Hrun|].
  destruct (Hshow ltac:(discriminate)) as (Hcodes & Hnum & _).
  split; [exact Hcodes|exact Hnum].
Defined.

Lemma blank_input_witness :
  @blanche ascii_python (u " , ,")
  ∧ @preparer_colis ascii_python (u " , ,") entrepot_vide
    = Ok (tt, entrepot_vide, []).
Proof.
  assert (@blanche ascii_python (u " , ,")) as Hb.
  { unfold blanche, u. simpl.
    repeat (constructor; [first [left; reflexivity|right; reflexivity]|]).
    constructor. }
  split; [exact Hb|].
  exact (proj2 (@blank_input ascii_python (u " , ,") entrepot_vide Hb)).
Defined.


Lemma inventory_never_empty_witness :
  tables_ascii ascii_python
  ∧ @run ascii_python [] = Ok (tt, entrepot_defaut, []).
Proof.
  assert (tables_ascii ascii_python) as Ha by (intros c _; by split_and!).
  split; [exact Ha|]. exact (proj1 (inventory_never_empty ascii_python Ha)).
Defined.
